(** * export-intune-apps: a shallow embedding of [intune-export.js] and [lib/db.js]

    The program is a sequential ETL script: it reads the command line, fetches
    an application inventory, ingests it into the [app] table of a SQLite
    file, optionally enriches the rows that have no title, and exports the
    table.  The embedding keeps the program's own names.  JavaScript values
    are a small tagged union, the table is the list of its rows in rowid
    order, thrown exceptions are an explicit outcome, and every call to the
    logger is an event of a trace. *)

From Stdlib Require Import String Ascii List ZArith Bool Lia.
Import ListNotations.
Open Scope string_scope.

(** ** JavaScript values *)

(** A JavaScript number.  The numbers the program computes with are epoch
    timestamps, integral and far inside the range where doubles are exact;
    [NaN] is what [Date.prototype.getTime] gives for an unparsable date. *)
Inductive jsnum : Type :=
| NaN
| Num (z : Z).

(** The values that flow through the inventory records and the provider
    metadata: a missing property ([undefined]), [null], strings, numbers. *)
Inductive jsval : Type :=
| JUndefined
| JNull
| JString (s : string)
| JNumber (n : jsnum).

(** ToBoolean: [undefined], [null], the empty string, [0] and [NaN] are falsy. *)
Definition truthy (v : jsval) : bool :=
  match v with
  | JUndefined | JNull => false
  | JString s => negb (s =? EmptyString)
  | JNumber NaN => false
  | JNumber (Num z) => negb (z =? 0)%Z
  end.

(** [a || b] *)
Definition js_or (a b : jsval) : jsval := if truthy a then a else b.

(** Decimal rendering of an integer, as a template literal prints it; a
    number has no more decimal digits than binary ones, which is the fuel. *)
Fixpoint digits_of (fuel : nat) (p : positive) (acc : string) : string :=
  match fuel with
  | O => acc
  | S fuel' =>
      let d := ascii_of_nat (48 + Z.to_nat (Z.pos p mod 10)) in
      match (Z.pos p / 10)%Z with
      | Z.pos q => digits_of fuel' q (String d acc)
      | _ => String d acc
      end
  end.

Definition Z_to_string (z : Z) : string :=
  match z with
  | Z0 => "0"
  | Z.pos p => digits_of (Pos.size_nat p) p EmptyString
  | Z.neg p => "-" ++ digits_of (Pos.size_nat p) p EmptyString
  end.

(** ToString, as a template literal [`${v}`] applies it. *)
Definition js_to_string (v : jsval) : string :=
  match v with
  | JUndefined => "undefined"
  | JNull => "null"
  | JString s => s
  | JNumber NaN => "NaN"
  | JNumber (Num z) => Z_to_string z
  end.

(** ** String methods *)

Module JsString.

(** [s.startsWith(p)] *)
Definition startsWith (s p : string) : bool := String.prefix p s.

(** [s.includes(p)]: [p] occurs somewhere in [s]. *)
Fixpoint includes (s p : string) : bool :=
  if String.prefix p s then true
  else match s with
       | EmptyString => false
       | String _ s' => includes s' p
       end.

Fixpoint drop (n : nat) (s : string) : string :=
  match n, s with
  | O, _ => s
  | S _, EmptyString => EmptyString
  | S n', String _ s' => drop n' s'
  end.

(** [s.replace(pat, rep)] with a string pattern: only the first occurrence
    of [pat] is replaced.  The program's replacement is always the empty
    string, so the [$] patterns of a replacement string never arise. *)
Fixpoint replace (pat rep s : string) : string :=
  if String.prefix pat s then rep ++ drop (String.length pat) s
  else match s with
       | EmptyString => EmptyString
       | String c s' => String c (replace pat rep s')
       end.

(** [s.split(sep)] for a separator of one character, which is what every
    call of the program passes.  The result is never the empty array. *)
Fixpoint split (sep : ascii) (s : string) : list string :=
  match s with
  | EmptyString => [EmptyString]
  | String c s' =>
      if Ascii.eqb c sep then EmptyString :: split sep s'
      else match split sep s' with
           | [] => [String c EmptyString]
           | p :: ps => String c p :: ps
           end
  end.

(** [arr[0]] and [arr[arr.length - 1]] on the result of [split]. *)
Definition first (parts : list string) : string := List.hd EmptyString parts.
Definition final (parts : list string) : string := List.last parts EmptyString.

(** The characters of [s] before the first [sep] (all of [s] without one). *)
Fixpoint before (sep : ascii) (s : string) : string :=
  match s with
  | EmptyString => EmptyString
  | String c s' => if Ascii.eqb c sep then EmptyString else String c (before sep s')
  end.

(** The characters of [s] after the last [sep] (all of [s] without one). *)
Fixpoint after_last (sep : ascii) (s : string) : string :=
  match s with
  | EmptyString => EmptyString
  | String c s' =>
      if includes s' (String sep EmptyString) then after_last sep s'
      else if Ascii.eqb c sep then s' else s
  end.

End JsString.

(** ** Exceptions and the logger *)

(** What the program can throw inside the loops it guards with [try]. *)
Inductive exn : Type :=
| TypeError (reading : string)          (* a method read off a non-string *)
| SqliteConstraint (column : string).   (* SQLITE_CONSTRAINT: UNIQUE failed *)

Inductive outcome (A : Type) : Type :=
| Return (a : A)
| Throw (e : exn).
Arguments Return {A} a.
Arguments Throw {A} e.

(** One constructor per logging call of [intune-export.js] and [lib/db.js]. *)
Inductive event : Type :=
| ErrUnsupportedPlatform (odata_type : string)
| DbgParsedUrl (url : string) (id : jsval)
| DbgAlreadyExists (platformAppKey : string)
| DbgSqliteRun
| DbgSqliteErr (e : exn)
| DbgSqliteOk
| InfoInserted (platformAppKey : string)
| ErrInsertion (e : exn)
| DbgFetchingIos
| ErrFetching (platformAppKey : string) (message : jsval)
| InfoUpdatedWithError (platformAppKey : string)
| ErrNoMetadata (platformAppKey : string)
| DbgMetadata
| InfoUpdated (platformAppKey : string)
| InfoExported (fileName : string).

(** ** The identifier resolver *)

Definition play_prefix : string := "https://play.google.com/store/apps/details?id=".
Definition apple_prefix : string := "https://apps.apple.com/us/app/".

(** [getPackageOrItunesId(url)].  [url.startsWith] throws a [TypeError] when
    [url] is not a string.  The function logs the rewritten [url] and its
    result once, at debug level, and returns the result. *)
Definition getPackageOrItunesId (url : jsval) : outcome jsval * list event :=
  match url with
  | JString url0 =>
      let '(url3, packageOrItunesId) :=
        if JsString.startsWith url0 play_prefix then
          let url1 := JsString.replace play_prefix EmptyString url0 in
          let url2 := JsString.first (JsString.split "&" url1) in
          (url2, JString url2)
        else if JsString.startsWith url0 apple_prefix then
          let url1 := JsString.replace apple_prefix EmptyString url0 in
          let url2 := JsString.first (JsString.split "?" url1) in
          let parts := JsString.split "/" url2 in
          (url2, JString (JsString.replace "id" EmptyString (JsString.final parts)))
        else (url0, JNull) in
      (Return packageOrItunesId, [DbgParsedUrl url3 packageOrItunesId])
  | _ => (Throw (TypeError "startsWith"), [])
  end.

(** The identifier alone, for a string argument. *)
Definition resolved (url : string) : outcome jsval := fst (getPackageOrItunesId (JString url)).

(** ** The [app] table *)

(** A value stored in a column.  SQLite keeps what is bound; column affinity
    is not modelled, since the program binds text to the text columns its
    queries compare. *)
Inductive sqlval : Type :=
| SNull
| SText (s : string)
| SInteger (z : Z).

(** Binding a JavaScript value as a statement parameter: [null] and
    [undefined] are stored as NULL, and so is [NaN]. *)
Definition bind_param (v : jsval) : sqlval :=
  match v with
  | JUndefined | JNull => SNull
  | JString s => SText s
  | JNumber NaN => SNull
  | JNumber (Num z) => SInteger z
  end.

(** A value read back from a row, as a JavaScript value. *)
Definition column_value (v : sqlval) : jsval :=
  match v with
  | SNull => JNull
  | SText s => JString s
  | SInteger z => JNumber (Num z)
  end.

(** The SQL comparison [a = b] of a WHERE clause and of a UNIQUE constraint:
    NULL is equal to nothing, not even to NULL. *)
Definition sql_eq (a b : sqlval) : bool :=
  match a, b with
  | SText s, SText t => s =? t
  | SInteger x, SInteger y => (x =? y)%Z
  | _, _ => false
  end.

Definition is_null (v : sqlval) : bool :=
  match v with SNull => true | _ => false end.

(** One row of [app], with the columns of CREATE TABLE in their order. *)
Module Row.
Record t : Type := mk {
  id : Z;
  intuneAppId : sqlval;
  platformAppKey : sqlval;
  packageId : sqlval;
  itunesId : sqlval;
  appIdentifier : sqlval;
  platform : sqlval;
  title : sqlval;
  url : sqlval;
  description : sqlval;
  minInstalls : sqlval;
  maxInstalls : sqlval;
  icon : sqlval;
  primaryGenre : sqlval;
  releasedAt : sqlval;
  updatedAt : sqlval;
  developerId : sqlval;
  developerEmail : sqlval;
  developer : sqlval;
  developerUrl : sqlval;
  developerWebsite : sqlval;
  developerAddress : sqlval;
  score : sqlval;
  reviews : sqlval;
  ratings : sqlval;
  ratingsHistogram : sqlval
}.

(** [UPDATE app SET title = ?] on one row. *)
Definition set_title (v : sqlval) (r : t) : t :=
  mk (id r) (intuneAppId r) (platformAppKey r) (packageId r) (itunesId r)
     (appIdentifier r) (platform r) v (url r) (description r)
     (minInstalls r) (maxInstalls r) (icon r) (primaryGenre r)
     (releasedAt r) (updatedAt r) (developerId r) (developerEmail r)
     (developer r) (developerUrl r) (developerWebsite r)
     (developerAddress r) (score r) (reviews r) (ratings r)
     (ratingsHistogram r).
End Row.

(** The database file: the rows of [app] in rowid order, and the counter
    that AUTOINCREMENT keeps for the table. *)
Record Db : Type := mkDb {
  rows : list Row.t;
  seq : Z
}.

(** What [initAppDb] yields on a file that does not exist yet. *)
Definition empty_db : Db := mkDb [] 0.

(** One record of the inventory response; a property the response lacks
    reads as [JUndefined]. *)
Module App.
Record t : Type := mk {
  odata_type : jsval;     (* app["@odata.type"] *)
  id : jsval;
  packageId : jsval;
  appStoreUrl : jsval
}.
End App.

(** ** Computations: the database threaded through, exceptions, the trace *)

Definition M (A : Type) : Type := Db -> outcome A * Db * list event.

Definition ret {A} (a : A) : M A := fun db => (Return a, db, []).

Definition throw {A} (e : exn) : M A := fun db => (Throw e, db, []).

Definition bind {A B} (m : M A) (k : A -> M B) : M B :=
  fun db =>
    match m db with
    | (Return a, db1, l1) =>
        let '(r, db2, l2) := k a db1 in (r, db2, (l1 ++ l2)%list)
    | (Throw e, db1, l1) => (Throw e, db1, l1)
    end.

(** [try { m } catch (error) { h error }] *)
Definition try_catch {A} (m : M A) (h : exn -> M A) : M A :=
  fun db =>
    match m db with
    | (Return a, db1, l1) => (Return a, db1, l1)
    | (Throw e, db1, l1) =>
        let '(r, db2, l2) := h e db1 in (r, db2, (l1 ++ l2)%list)
    end.

Definition log (ev : event) : M unit := fun db => (Return tt, db, [ev]).

(** A pure call that may throw and that logs, such as the resolver. *)
Definition lift {A} (c : outcome A * list event) : M A :=
  fun db => (fst c, db, snd c).

Declare Scope js_scope.
Delimit Scope js_scope with js.
Notation "x <- m ;; k" := (bind m (fun x => k))
  (at level 61, m at next level, right associativity) : js_scope.
Notation "m ;;; k" := (bind m (fun _ => k))
  (at level 61, right associativity) : js_scope.
Open Scope js_scope.

(** ** [lib/db.js] *)

(** [dbUtils.all(db, "SELECT * FROM app WHERE ...", params)] *)
Definition all (where_ : Row.t -> bool) : M (list Row.t) :=
  fun db => (Return (filter where_ (rows db)), db, []).

Definition platformAppKey_is (key : sqlval) (r : Row.t) : bool :=
  sql_eq (Row.platformAppKey r) key.

Definition title_is_null (r : Row.t) : bool := is_null (Row.title r).

(** Does some row hold [v] in the UNIQUE column [col]? *)
Definition taken (col : Row.t -> sqlval) (v : sqlval) (db : Db) : bool :=
  existsb (fun r => sql_eq (col r) v) (rows db).

(** The row that
    [INSERT INTO app (intuneAppId, platformAppKey, packageId, itunesId,
    appIdentifier, platform) VALUES (?, ?, ?, ?, ?, ?)] creates. *)
Definition new_row (rowid : Z) (p1 p2 p3 p4 p5 p6 : sqlval) : Row.t :=
  Row.mk rowid p1 p2 p3 p4 p5 p6
         SNull SNull SNull SNull SNull SNull SNull SNull SNull SNull
         SNull SNull SNull SNull SNull SNull SNull SNull SNull.

(** [dbUtils.run(db, sqlInsert, paramsInsert)]: the promise is rejected when
    a UNIQUE column would repeat, and the table is left as it was. *)
Definition run_insert (p1 p2 p3 p4 p5 p6 : sqlval) : M unit :=
  fun db =>
    if taken Row.intuneAppId p1 db then
      (Throw (SqliteConstraint "app.intuneAppId"), db,
       [DbgSqliteRun; DbgSqliteErr (SqliteConstraint "app.intuneAppId")])
    else if taken Row.platformAppKey p2 db then
      (Throw (SqliteConstraint "app.platformAppKey"), db,
       [DbgSqliteRun; DbgSqliteErr (SqliteConstraint "app.platformAppKey")])
    else
      (Return tt,
       mkDb (rows db ++ [new_row (seq db + 1) p1 p2 p3 p4 p5 p6])%list (seq db + 1),
       [DbgSqliteRun; DbgSqliteOk]).

(** ** Ingestion *)

(** The platform test at the head of the loop body: [Some] platform, or
    [None] after the error is logged and the loop [continue]s. *)
Definition platform_of (app : App.t) : M (option string) :=
  match App.odata_type app with
  | JString t =>
      if JsString.includes t "android" then ret (Some "android")
      else if JsString.includes t "ios" then ret (Some "ios")
      else log (ErrUnsupportedPlatform t) ;;; ret None
  | _ => throw (TypeError "includes")
  end.

(** The key and the six parameters of the INSERT, from the platform and the
    resolved iTunes identifier. *)
Definition appIdentifier_of (app : App.t) (itunesId : jsval) : jsval :=
  js_or (App.packageId app) itunesId.

Definition platformAppKey_of (platform : string) (app : App.t) (itunesId : jsval) : string :=
  platform ++ "-" ++ js_to_string (js_or (App.packageId app) itunesId).

(** The body of the [for (const app of apps)] loop of [addAppsToDb]. *)
Definition addApp (app : App.t) : M unit :=
  try_catch
    (platform <- platform_of app ;;
     match platform with
     | None => ret tt
     | Some platform =>
         let packageId := App.packageId app in
         itunesId <- (if platform =? "ios"
                      then lift (getPackageOrItunesId (App.appStoreUrl app))
                      else ret JNull) ;;
         let appIdentifier := appIdentifier_of app itunesId in
         let platformAppKey := platformAppKey_of platform app itunesId in
         found <- all (platformAppKey_is (SText platformAppKey)) ;;
         if (0 <? List.length found)%nat then
           log (DbgAlreadyExists platformAppKey)
         else
           run_insert (bind_param (App.id app)) (SText platformAppKey)
                      (bind_param packageId) (bind_param itunesId)
                      (bind_param appIdentifier) (SText platform) ;;;
           log (InfoInserted platformAppKey)
     end)
    (fun error => log (ErrInsertion error)).

(** [addAppsToDb(db, apps)] *)
Fixpoint addAppsToDb (apps : list App.t) : M unit :=
  match apps with
  | [] => ret tt
  | app :: rest => addApp app ;;; addAppsToDb rest
  end.

(** The table and the trace after a computation. *)
Definition db_after {A} (m : M A) (db : Db) : Db := snd (fst (m db)).
Definition trace_of {A} (m : M A) (db : Db) : list event := snd (m db).
Definition result_of {A} (m : M A) (db : Db) : outcome A := fst (fst (m db)).

(** ** Enrichment *)

(** The metadata object a store provider resolves to, with the properties
    [enrichAppMetadata] reads.  [histogram_json] stands for
    [JSON.stringify(appMetadata.histogram)]. *)
Module Meta.
Record t : Type := mk {
  title : jsval;
  url : jsval;
  description : jsval;
  minInstalls : jsval;
  maxInstalls : jsval;
  icon : jsval;
  genre : jsval;
  primaryGenre : jsval;
  released : jsval;
  updated : jsval;
  developerId : jsval;
  developerEmail : jsval;
  developer : jsval;
  developerUrl : jsval;
  developerWebsite : jsval;
  developerAddress : jsval;
  score : jsval;
  reviews : jsval;
  ratings : jsval;
  histogram_json : jsval
}.

(** [appMetadata.released = v] and [appMetadata.updated = v] *)
Definition set_released (v : jsval) (m : t) : t :=
  mk (title m) (url m) (description m) (minInstalls m) (maxInstalls m)
     (icon m) (genre m) (primaryGenre m) v (updated m) (developerId m)
     (developerEmail m) (developer m) (developerUrl m) (developerWebsite m)
     (developerAddress m) (score m) (reviews m) (ratings m)
     (histogram_json m).

Definition set_updated (v : jsval) (m : t) : t :=
  mk (title m) (url m) (description m) (minInstalls m) (maxInstalls m)
     (icon m) (genre m) (primaryGenre m) (released m) v (developerId m)
     (developerEmail m) (developer m) (developerUrl m) (developerWebsite m)
     (developerAddress m) (score m) (reviews m) (ratings m)
     (histogram_json m).
End Meta.

(** How a call to a store provider ends: the promise is rejected with an
    error whose [message] property is given, or it resolves to a metadata
    object ([None] for a falsy result). *)
Inductive provided : Type :=
| Rejects (message : jsval)
| Resolves (m : option Meta.t).

(** [Math.floor(x / 1000)] *)
Definition floor_div_1000 (n : jsnum) : jsnum :=
  match n with
  | NaN => NaN
  | Num z => Num (z / 1000)
  end.

(** [platform === "android"] on a column value. *)
Definition strict_eq_string (v : sqlval) (s : string) : bool :=
  match v with
  | SText t => t =? s
  | _ => false
  end.

Section Enrichment.

(** The two store providers, [gplay.app({ appId })] and [store.app({ id })],
    by the identifier they are given, and [new Date(s).getTime()]. *)
Variable gplay_app : sqlval -> provided.
Variable store_app : sqlval -> provided.
Variable Date_getTime : string -> jsnum.

(** [if (typeof v === "string") v = new Date(v).getTime()] *)
Definition date_to_millis (v : jsval) : jsval :=
  match v with
  | JString s => JNumber (Date_getTime s)
  | _ => v
  end.

(** [if (typeof v === "number") v = Math.floor(v / 1000)] *)
Definition millis_to_seconds (v : jsval) : jsval :=
  match v with
  | JNumber n => JNumber (floor_div_1000 n)
  | _ => v
  end.

(** The four [if]s on [released] and [updated], in the program's order. *)
Definition normalize_dates (m : Meta.t) : Meta.t :=
  let m1 := Meta.set_released (date_to_millis (Meta.released m)) m in
  let m2 := Meta.set_updated (date_to_millis (Meta.updated m1)) m1 in
  let m3 := Meta.set_released (millis_to_seconds (Meta.released m2)) m2 in
  Meta.set_updated (millis_to_seconds (Meta.updated m3)) m3.

(** What one timestamp property becomes on its way to the table. *)
Definition normalize_timestamp (v : jsval) : jsval :=
  millis_to_seconds (date_to_millis v).

(** [UPDATE app SET title = ? WHERE platformAppKey = ?] through [db.run]
    with a callback.  The statement is taken to have run when
    [enrichAppMetadata] returns; it touches no UNIQUE column and cannot
    fail. *)
Definition run_update_title (title key : sqlval) : M unit :=
  fun db =>
    (Return tt,
     mkDb (map (fun r => if platformAppKey_is key r
                         then Row.set_title title r else r) (rows db))
          (seq db),
     [InfoUpdatedWithError (js_to_string (column_value key))]).

(** The row after the twenty-column UPDATE. *)
Definition enriched (appData : Row.t) (m : Meta.t) (genre : jsval) (r : Row.t) : Row.t :=
  Row.mk (Row.id r) (Row.intuneAppId r) (Row.platformAppKey r)
         (Row.packageId appData) (Row.itunesId r) (Row.appIdentifier r)
         (Row.platform r)
         (bind_param (Meta.title m)) (bind_param (Meta.url m))
         (bind_param (Meta.description m)) (bind_param (Meta.minInstalls m))
         (bind_param (Meta.maxInstalls m)) (bind_param (Meta.icon m))
         (bind_param genre) (bind_param (Meta.released m))
         (bind_param (Meta.updated m)) (bind_param (Meta.developerId m))
         (bind_param (Meta.developerEmail m)) (bind_param (Meta.developer m))
         (bind_param (Meta.developerUrl m))
         (bind_param (Meta.developerWebsite m))
         (bind_param (Meta.developerAddress m)) (bind_param (Meta.score m))
         (bind_param (Meta.reviews m)) (bind_param (Meta.ratings m))
         (bind_param (Meta.histogram_json m)).

Definition run_update_metadata (appData : Row.t) (m : Meta.t) (genre : jsval)
    (key : sqlval) : M unit :=
  fun db =>
    (Return tt,
     mkDb (map (fun r => if platformAppKey_is key r
                         then enriched appData m genre r else r) (rows db))
          (seq db),
     [InfoUpdated (js_to_string (column_value key))]).

(** The [try] block of [enrichAppMetadata]: which provider is asked. *)
Definition fetch (appData : Row.t) : option provided * list event :=
  if strict_eq_string (Row.platform appData) "android" then
    (Some (gplay_app (Row.packageId appData)), [])
  else if strict_eq_string (Row.platform appData) "ios" then
    (Some (store_app (Row.itunesId appData)), [DbgFetchingIos])
  else
    (None,
     [ErrUnsupportedPlatform (js_to_string (column_value (Row.platform appData)))]).

(** [enrichAppMetadata(appData, db)] *)
Definition enrichAppMetadata (appData : Row.t) : M unit :=
  let platformAppKey := Row.platformAppKey appData in
  let key_text := js_to_string (column_value platformAppKey) in
  fetched <- lift (Return (fst (fetch appData)), snd (fetch appData)) ;;
  match fetched with
  | None => ret tt
  | Some (Rejects message) =>
      log (ErrFetching key_text message) ;;;
      run_update_title (bind_param message) platformAppKey
  | Some (Resolves None) => log (ErrNoMetadata key_text)
  | Some (Resolves (Some appMetadata0)) =>
      log DbgMetadata ;;;
      let appMetadata := normalize_dates appMetadata0 in
      let genre := if strict_eq_string (Row.platform appData) "android"
                   then Meta.genre appMetadata
                   else Meta.primaryGenre appMetadata in
      run_update_metadata appData appMetadata genre platformAppKey
  end.

(** The [for] loop of the main function over the selected rows; the pause
    of five seconds after each call changes no state. *)
Fixpoint enrich_each (dbApps : list Row.t) : M unit :=
  match dbApps with
  | [] => ret tt
  | app :: rest => enrichAppMetadata app ;;; enrich_each rest
  end.

(** The [if (opts.metadata)] block: one enrichment pass. *)
Definition enrich_pass : M unit :=
  dbApps <- all title_is_null ;;
  enrich_each dbApps.

End Enrichment.

(** ** Export *)

(** A row as [SELECT *] hands it to the serializers: an object with one
    property per column, in the order of the columns. *)
Definition object : Type := list (string * jsval).

Definition columns : list string :=
  ["id"; "intuneAppId"; "platformAppKey"; "packageId"; "itunesId";
   "appIdentifier"; "platform"; "title"; "url"; "description";
   "minInstalls"; "maxInstalls"; "icon"; "primaryGenre"; "releasedAt";
   "updatedAt"; "developerId"; "developerEmail"; "developer";
   "developerUrl"; "developerWebsite"; "developerAddress"; "score";
   "reviews"; "ratings"; "ratingsHistogram"].

Definition cells (r : Row.t) : list sqlval :=
  [SInteger (Row.id r); Row.intuneAppId r; Row.platformAppKey r;
   Row.packageId r; Row.itunesId r; Row.appIdentifier r; Row.platform r;
   Row.title r; Row.url r; Row.description r; Row.minInstalls r;
   Row.maxInstalls r; Row.icon r; Row.primaryGenre r; Row.releasedAt r;
   Row.updatedAt r; Row.developerId r; Row.developerEmail r;
   Row.developer r; Row.developerUrl r; Row.developerWebsite r;
   Row.developerAddress r; Row.score r; Row.reviews r; Row.ratings r;
   Row.ratingsHistogram r].

Definition object_of_row (r : Row.t) : object :=
  combine columns (map column_value (cells r)).

(** Modelled from the spec: the CSV serializer, [new Parser().parse(rows)] of
    the json2csv package, which is not among the sources.  The spec has it
    produce a flat file, a header derived from the first-seen keys followed by
    one line per row; quoting of a field is left out, the spec being silent
    on it. *)
Definition csv_field (v : jsval) : string :=
  match v with
  | JUndefined | JNull => EmptyString
  | _ => js_to_string v
  end.

Definition csv_header (objs : list object) : string :=
  match objs with
  | [] => EmptyString
  | o :: _ => String.concat "," (map fst o)
  end.

Definition csv_record (o : object) : string :=
  String.concat "," (map (fun kv => csv_field (snd kv)) o).

Definition csv_lines (objs : list object) : list string :=
  csv_header objs :: map csv_record objs.

Definition eol : string := String (ascii_of_nat 10) EmptyString.

Definition Parser_parse (objs : list object) : string :=
  String.concat eol (csv_lines objs).

(** What [fs.writeFileSync] is given: the CSV text, or the array that
    [JSON.stringify(rows, null, 2)] prints. *)
Inductive contents : Type :=
| CsvText (text : string)
| JsonArray (elements : list object).

Record file : Type := mkFile {
  path : string;
  data : contents
}.

(** [exportToCsvAndJson(db, fileName)]: the two files written, in order. *)
Definition exportToCsvAndJson (fileName : string) : M (list file) :=
  found <- all (fun _ => true) ;;
  let objs := map object_of_row found in
  let csv := Parser_parse objs in
  log (InfoExported fileName) ;;;
  ret [mkFile ("output/" ++ fileName ++ ".csv") (CsvText csv);
       mkFile ("output/" ++ fileName ++ ".json") (JsonArray objs)].

(** ** Start-up: the command line and the environment *)

(** The flags found on the command line ([None]: the flag is not there). *)
Record Argv : Type := mkArgv {
  flag_tenantId : option string;
  flag_clientId : option string;
  flag_debug : bool;
  flag_metadata : bool;
  flag_output : option string
}.

(** [process.env]; a variable that is not set reads as [undefined]. *)
Record Env : Type := mkEnv {
  TENANT_ID : option string;
  CLIENT_ID : option string;
  CLIENT_SECRET : option string
}.

Definition env_value (v : option string) : jsval :=
  match v with
  | Some s => JString s
  | None => JUndefined
  end.

Record Opts : Type := mkOpts {
  tenantId : jsval;
  clientId : jsval;
  clientSecret : jsval;
  debug : bool;
  metadata : bool;
  output : string
}.

(** The process either ends with an exit code and a line on stderr, or goes
    on to the asynchronous main function, whose first act is the token
    request. *)
Inductive started : Type :=
| Exited (code : Z) (stderr : string)
| Running (opts : Opts).

(** [program.parse(process.argv)] with the options as declared: both
    [--tenantId] and [--clientId] are declared with [requiredOption], so
    commander reports the first one that has no value after parsing and
    ends the process with status 1; [--output] has the default
    ["intune_apps"]. *)
Definition program_parse (argv : Argv) : started :=
  match flag_tenantId argv, flag_clientId argv with
  | None, _ =>
      Exited 1 "error: required option '--tenantId <tenantId>' not specified"
  | Some _, None =>
      Exited 1 "error: required option '--clientId <clientId>' not specified"
  | Some t, Some c =>
      Running (mkOpts (JString t) (JString c) JUndefined
                      (flag_debug argv) (flag_metadata argv)
                      (match flag_output argv with
                       | Some o => o
                       | None => "intune_apps"
                       end))
  end.

Definition credentials_message : string :=
  "Please provide the tenantId, clientId and clientSecret as environment variables or command line arguments".

(** The top level of [intune-export.js] up to the call of the main function. *)
Definition startup (argv : Argv) (env : Env) : started :=
  match program_parse argv with
  | Exited code msg => Exited code msg
  | Running opts =>
      let tenantId := js_or (tenantId opts) (env_value (TENANT_ID env)) in
      let clientId := js_or (clientId opts) (env_value (CLIENT_ID env)) in
      let clientSecret := env_value (CLIENT_SECRET env) in
      if negb (truthy tenantId) || negb (truthy clientId)
         || negb (truthy clientSecret)
      then Exited 1 credentials_message
      else Running (mkOpts tenantId clientId clientSecret
                           (debug opts) (metadata opts) (output opts))
  end.

(** ** The resolver's two policies, in the words of the specification *)

(** Strip a leading token, when there is one. *)
Definition strip_leading (tok s : string) : string :=
  if String.prefix tok s then JsString.drop (String.length tok) s else s.

(** Android: strip the fixed prefix up to the package-id query parameter,
    discard everything from the first [&]. *)
Definition android_policy (url : string) : string :=
  JsString.before "&" (JsString.drop (String.length play_prefix) url).

(** iOS: strip the fixed path prefix, discard the query string, split the
    path on [/], take the last segment, strip a leading [id] token. *)
Definition ios_last_segment (url : string) : string :=
  JsString.after_last "/"
    (JsString.before "?" (JsString.drop (String.length apple_prefix) url)).

Definition ios_policy (url : string) : string :=
  strip_leading "id" (ios_last_segment url).

(** ** The persistence step of one record, as a pure function *)

(** What the loop body of [addAppsToDb] wants to insert for a record: nothing
    when the platform is not recognised or a method call throws, otherwise
    the key and the other five parameters of the INSERT. *)
Definition candidate (app : App.t) : option (string * Row.t) :=
  match App.odata_type app with
  | JString t =>
      let make (platform : string) (itunesId : jsval) :=
        let key := platformAppKey_of platform app itunesId in
        Some (key,
              new_row 0 (bind_param (App.id app)) (SText key)
                      (bind_param (App.packageId app)) (bind_param itunesId)
                      (bind_param (appIdentifier_of app itunesId))
                      (SText platform)) in
      if JsString.includes t "android" then make "android" JNull
      else if JsString.includes t "ios" then
        match fst (getPackageOrItunesId (App.appStoreUrl app)) with
        | Return itunesId => make "ios" itunesId
        | Throw _ => None
        end
      else None
  | _ => None
  end.

(** The row with the rowid the table gives it. *)
Definition with_id (rowid : Z) (r : Row.t) : Row.t :=
  new_row rowid (Row.intuneAppId r) (Row.platformAppKey r) (Row.packageId r)
          (Row.itunesId r) (Row.appIdentifier r) (Row.platform r).

(** Check-then-insert of a candidate. *)
Definition persist (c : option (string * Row.t)) (db : Db) : Db :=
  match c with
  | None => db
  | Some (key, r) =>
      if existsb (platformAppKey_is (SText key)) (rows db) then db
      else if taken Row.intuneAppId (Row.intuneAppId r) db then db
      else mkDb (rows db ++ [with_id (seq db + 1) r])%list (seq db + 1)
  end.

(** The whole loop: a left fold of [persist] over the response. *)
Definition ingest (apps : list App.t) (db : Db) : Db :=
  fold_left (fun d app => persist (candidate app) d) apps db.

(** The keys of a table are usable when every row has a text key and no two
    rows share one, which is what the UNIQUE column and the program's
    inserts give. *)
Definition keys_ok (db : Db) : Prop :=
  NoDup (map Row.platformAppKey (rows db)) /\
  forall r, In r (rows db) -> exists k, Row.platformAppKey r = SText k.

(** An Android record whose [packageId] is [null]. *)
Definition android_without_package (app : App.t) : Prop :=
  (exists t, App.odata_type app = JString t /\ JsString.includes t "android" = true)
  /\ App.packageId app = JNull.

(** An iOS record: the discriminator mentions [ios] and not [android]. *)
Definition is_ios (app : App.t) : Prop :=
  exists t, App.odata_type app = JString t
            /\ JsString.includes t "android" = false
            /\ JsString.includes t "ios" = true.

(** A record whose discriminator string names neither platform. *)
Definition unrecognised (app : App.t) : Prop :=
  exists t, App.odata_type app = JString t
            /\ JsString.includes t "android" = false
            /\ JsString.includes t "ios" = false.


(** The record with another store URL. *)
Definition with_appStoreUrl (url : jsval) (app : App.t) : App.t :=
  App.mk (App.odata_type app) (App.id app) (App.packageId app) url.

(** ** Sample records, in the shape the inventory endpoint returns them *)

Module Sample.
Definition facebook : App.t :=
  App.mk (JString "#microsoft.graph.iosStoreApp") (JString "a-01") JNull
         (JString "https://apps.apple.com/us/app/facebook/id284882215?uo=4").

Definition temu : App.t :=
  App.mk (JString "#microsoft.graph.androidStoreApp") (JString "a-02") JNull
         (JString "https://play.google.com/store/apps/details?id=com.einnovation.temu&hl=en_US").

Definition firefox : App.t :=
  App.mk (JString "#microsoft.graph.androidManagedStoreApp") (JString "a-03")
         (JString "org.mozilla.firefox") JNull.

Definition web_link : App.t :=
  App.mk (JString "#microsoft.graph.webApp") (JString "a-04") JUndefined
         JUndefined.

Definition android_lob : App.t :=
  App.mk (JString "#microsoft.graph.androidLobApp") (JString "a-05") JNull
         JUndefined.

Definition ios_odd_url : App.t :=
  App.mk (JString "#microsoft.graph.iosStoreApp") (JString "a-06") JNull
         (JString "https://itunes.apple.com/us/app/id284882215").

(** A table after one ingestion, its three rows, and providers that have
    Google Play reject one package and find nothing otherwise. *)
Definition table : Db :=
  db_after (addAppsToDb [facebook; firefox; temu]) empty_db.

Definition facebook_row : Row.t :=
  new_row 1 (SText "a-01") (SText "ios-284882215") SNull (SText "284882215")
          (SText "284882215") (SText "ios").

Definition firefox_row : Row.t :=
  new_row 2 (SText "a-03") (SText "android-org.mozilla.firefox")
          (SText "org.mozilla.firefox") SNull (SText "org.mozilla.firefox")
          (SText "android").

Definition temu_row : Row.t :=
  new_row 3 (SText "a-02") (SText "android-null") SNull SNull SNull
          (SText "android").

Definition gplay_down (appId : sqlval) : provided :=
  if sql_eq appId (SText "org.mozilla.firefox")
  then Rejects (JString "App not found (404)")
  else Resolves None.

Definition store_quiet (id : sqlval) : provided := Resolves None.

Definition no_dates (s : string) : jsnum := NaN.

(** A clock for the samples: a date-only ISO string, which JavaScript reads
    as midnight UTC of that day; anything else is not a date here. *)
Definition digit (c : ascii) : option Z :=
  let n := Z.of_nat (nat_of_ascii c) in
  if ((48 <=? n) && (n <=? 57))%Z then Some (n - 48)%Z else None.

Fixpoint number (acc : Z) (cs : list ascii) : option Z :=
  match cs with
  | [] => Some acc
  | c :: cs' =>
      match digit c with
      | Some d => number (10 * acc + d) cs'
      | None => None
      end
  end.

Definition days_from_civil (y m d : Z) : Z :=
  let y1 := if (m <=? 2)%Z then (y - 1)%Z else y in
  let era := (y1 / 400)%Z in
  let yoe := (y1 - era * 400)%Z in
  let mp := ((m + 9) mod 12)%Z in
  let doy := ((153 * mp + 2) / 5 + d - 1)%Z in
  let doe := (yoe * 365 + yoe / 4 - yoe / 100 + doy)%Z in
  (era * 146097 + doe - 719468)%Z.

Definition utc_midnight (s : string) : jsnum :=
  match list_ascii_of_string s with
  | [y1; y2; y3; y4; "-"%char; m1; m2; "-"%char; d1; d2] =>
      match number 0 [y1; y2; y3; y4], number 0 [m1; m2], number 0 [d1; d2] with
      | Some y, Some m, Some d => Num (86400000 * days_from_civil y m d)
      | _, _, _ => NaN
      end
  | _ => NaN
  end.
End Sample.

(** ** The constraints of the [app] table *)

(** The values of a UNIQUE column that count for the constraint: NULLs may
    repeat. *)
Definition non_null_values (col : Row.t -> sqlval) (db : Db) : list sqlval :=
  filter (fun v => negb (is_null v)) (map col (rows db)).

(** [intuneAppId TEXT UNIQUE] *)
Definition intune_ids_ok (db : Db) : Prop :=
  NoDup (non_null_values Row.intuneAppId db).

(** [id INTEGER PRIMARY KEY AUTOINCREMENT]: the rowids are distinct and none
    is beyond the counter. *)
Definition rowids_ok (db : Db) : Prop :=
  NoDup (map Row.id (rows db))
  /\ forall r, In r (rows db) -> (Row.id r <= seq db)%Z.

Definition table_ok (db : Db) : Prop :=
  keys_ok db /\ intune_ids_ok db /\ rowids_ok db.

(** A row as ingestion creates it: a supported platform and every
    descriptive column NULL. *)
Definition fresh_row (r : Row.t) : Prop :=
  (Row.platform r = SText "android" \/ Row.platform r = SText "ios")
  /\ skipn 7 (cells r) = repeat SNull 19.

(** A record on which the loop body throws before it reaches the table: the
    discriminator is not a string, or the record is an iOS one whose store
    URL is not a string. *)
Definition not_a_string (v : jsval) : Prop :=
  match v with JString _ => False | _ => True end.

Definition throws_before_insert (app : App.t) : Prop :=
  not_a_string (App.odata_type app)
  \/ (is_ios app /\ not_a_string (App.appStoreUrl app)).

(** ** The shape of a store URL *)

(** The query part of a URL: nothing, or a question mark and parameters. *)
Definition query_text (q : option string) : string :=
  match q with
  | None => EmptyString
  | Some params => String "?" params
  end.

(** Further parameters of a Play URL: nothing, or an ampersand and the rest. *)
Definition more_parameters (q : option string) : string :=
  match q with
  | None => EmptyString
  | Some params => String "&" params
  end.


(** ** The two requests: token and inventory *)

(** How an [axios] call ends: the promise is rejected with an error of the
    given message (any response that is not a success), or it resolves with
    the data of the response. *)
Inductive http (A : Type) : Type :=
| HttpError (message : string)
| HttpOk (data : A).
Arguments HttpError {A} message.
Arguments HttpOk {A} data.

(** The data of one response of the inventory endpoint: the records of the
    page in [value], and the continuation link [@odata.nextLink] when there
    is one. *)
Record Page : Type := mkPage {
  value : list App.t;
  nextLink : option string
}.

Definition token_url (tenantId : jsval) : string :=
  "https://login.microsoftonline.com/" ++ js_to_string tenantId
  ++ "/oauth2/v2.0/token".

Definition inventory_url : string :=
  "https://graph.microsoft.com/v1.0/deviceAppManagement/mobileApps".

(** The [data] object of [getToken], before [qs.stringify]. *)
Definition token_form (clientId clientSecret : jsval) : list (string * jsval) :=
  [("client_id", clientId);
   ("scope", JString "https://graph.microsoft.com/.default");
   ("client_secret", clientSecret);
   ("grant_type", JString "client_credentials")].

Section Requests.

(** [axios.post(url, qs.stringify(data), ...)], giving
    [response.data.access_token], and [axios.get(url, { headers })] with the
    value of the Authorization header. *)
Variable axios_post : string -> list (string * jsval) -> http jsval.
Variable axios_get : string -> string -> http Page.

(** [getToken(tenantId, clientId, clientSecret)] *)
Definition getToken (tenantId clientId clientSecret : jsval) : http jsval :=
  axios_post (token_url tenantId) (token_form clientId clientSecret).

(** The [while (next)] loop of [getIntuneApps]: it ends when [next] is
    [undefined] or the empty string.  The loop has no bound of its own; the
    fuel counts the requests, and [None] is a loop still running when the
    fuel is spent. *)
Fixpoint while_next (fuel : nat) (authorization : string)
    (next : option string) (results : list App.t)
    : option (http (list App.t)) :=
  match next with
  | None => Some (HttpOk results)
  | Some url =>
      if url =? EmptyString then Some (HttpOk results)
      else match fuel with
           | O => None
           | S fuel' =>
               match axios_get url authorization with
               | HttpError message => Some (HttpError message)
               | HttpOk res =>
                   while_next fuel' authorization (nextLink res)
                              (results ++ value res)
               end
           end
  end.

(** [getIntuneApps(token)] *)
Definition getIntuneApps (fuel : nat) (token : jsval)
    : option (http (list App.t)) :=
  while_next fuel ("Bearer " ++ js_to_string token) (Some inventory_url) [].

(** The pages a server hands out from [next] on, link after link, up to the
    page that has no link. *)
Inductive serves (authorization : string)
    : option string -> list Page -> Prop :=
| serves_no_link : serves authorization None []
| serves_empty_link : serves authorization (Some EmptyString) []
| serves_page (url : string) (res : Page) (rest : list Page) :
    url <> EmptyString ->
    axios_get url authorization = HttpOk res ->
    serves authorization (nextLink res) rest ->
    serves authorization (Some url) (res :: rest).

(** The server answers [before] requests from [next] on and fails the one
    after them. *)
Inductive fails (authorization : string) (message : string)
    : option string -> nat -> Prop :=
| fails_now (url : string) :
    url <> EmptyString ->
    axios_get url authorization = HttpError message ->
    fails authorization message (Some url) 0
| fails_later (url : string) (res : Page) (before : nat) :
    url <> EmptyString ->
    axios_get url authorization = HttpOk res ->
    fails authorization message (nextLink res) before ->
    fails authorization message (Some url) (S before).

End Requests.

(** ** The run as a whole *)

(** What a run finds and leaves on disk: whether the [output] directory
    exists, the database file when there is one, and the exported files. *)
Record Disk : Type := mkDisk {
  output_dir : bool;
  database : option Db;
  files : list file
}.

(** [fs.writeFileSync(path, data)]: the file of that path is replaced. *)
Definition writeFileSync (f : file) (fs : list file) : list file :=
  f :: filter (fun g => negb (path g =? path f)) fs.

(** [initAppDb()]: the database file is opened, or created empty, and the
    table is created if it is not there. *)
Definition initAppDb (disk : Disk) : Db :=
  match database disk with
  | Some db => db
  | None => empty_db
  end.

(** What a run leaves behind: the disk, the lines written with
    [console.error], and the logger calls of ingestion, enrichment and
    export (the debug lines of the top level, of [initAppDb] and of the main
    function itself are not part of this trace). *)
Record Ran : Type := mkRan {
  disk_after : Disk;
  stderr : list string;
  logged : list event
}.

Section Program.

Variable axios_post : string -> list (string * jsval) -> http jsval.
Variable axios_get : string -> string -> http Page.
Variable gplay_app : sqlval -> provided.
Variable store_app : sqlval -> provided.
Variable Date_getTime : string -> jsnum.

(** The [catch] of the main function: [console.error("Error:", err.message)]. *)
Definition caught (disk : Disk) (message : string) : Ran :=
  mkRan disk ["Error: " ++ message] [].

(** The asynchronous main function, from [getToken] to the export.  [None]
    is a run whose inventory loop is still going when the fuel is spent. *)
Definition main (fuel : nat) (opts : Opts) (disk : Disk) : option Ran :=
  match getToken axios_post (tenantId opts) (clientId opts) (clientSecret opts) with
  | HttpError message => Some (caught disk message)
  | HttpOk token =>
      match getIntuneApps axios_get fuel token with
      | None => None
      | Some (HttpError message) => Some (caught disk message)
      | Some (HttpOk apps) =>
          let db := initAppDb disk in
          let '(_, db1, log1) := addAppsToDb apps db in
          let '(_, db2, log2) :=
            if metadata opts
            then enrich_pass gplay_app store_app Date_getTime db1
            else (Return tt, db1, []) in
          let '(exported, db3, log3) := exportToCsvAndJson (output opts) db2 in
          let written :=
            match exported with
            | Return fs => fold_left (fun acc f => writeFileSync f acc) fs
                                     (files disk)
            | Throw _ => files disk
            end in
          Some (mkRan (mkDisk true (Some db3) written) []
                      (log1 ++ log2 ++ log3)%list)
      end
  end.

(** The program: the top level, then the main function. *)
Definition program (fuel : nat) (argv : Argv) (env : Env) (disk : Disk)
    : option (Z + Ran) :=
  match startup argv env with
  | Exited code _ => Some (inl code)
  | Running opts =>
      match main fuel opts disk with
      | Some ran => Some (inr ran)
      | None => None
      end
  end.

End Program.

(** ** A sample tenant *)

Module Tenant.
Definition second_page : string :=
  "https://graph.microsoft.com/v1.0/deviceAppManagement/mobileApps?$skiptoken=2".

Definition token_ok (url : string) (form : list (string * jsval)) : http jsval :=
  HttpOk (JString "eyJ0").

Definition token_denied (url : string) (form : list (string * jsval)) : http jsval :=
  HttpError "Request failed with status code 401".

Definition two_pages (url authorization : string) : http Page :=
  if url =? inventory_url then
    HttpOk (mkPage [Sample.facebook; Sample.firefox] (Some second_page))
  else if url =? second_page then
    HttpOk (mkPage [Sample.temu] None)
  else HttpError "Request failed with status code 404".

Definition throttled (url authorization : string) : http Page :=
  if url =? inventory_url then
    HttpOk (mkPage [Sample.facebook; Sample.firefox] (Some second_page))
  else HttpError "Request failed with status code 429".

Definition opts : Opts :=
  mkOpts (JString "tenant-0") (JString "client-0") (JString "secret-0")
         false false "intune_apps".

Definition blank_disk : Disk := mkDisk false None [].
End Tenant.

(** ** What enrichment may and may not touch *)

(** The columns that say which application a row is. *)
Definition identity (r : Row.t)
    : Z * sqlval * sqlval * sqlval * sqlval * sqlval :=
  (Row.id r, Row.intuneAppId r, Row.platformAppKey r, Row.itunesId r,
   Row.appIdentifier r, Row.platform r).

(** The genre [enrichAppMetadata] stores for a row of the given platform. *)
Definition genre_for (appData : Row.t) (m : Meta.t) : jsval :=
  if strict_eq_string (Row.platform appData) "android"
  then Meta.genre m else Meta.primaryGenre m.

(** A provider answer that writes no title: nothing was asked, nothing was
    found, or the error has no message to store. *)
Definition writes_no_title (answer : option provided) : Prop :=
  match answer with
  | None => True
  | Some (Resolves None) => True
  | Some (Rejects message) => bind_param message = SNull
  | Some (Resolves (Some _)) => False
  end.

(** ** A sample store answer *)

Module Shop.
Definition firefox_meta : Meta.t :=
  Meta.mk (JString "Firefox Fast & Private Browser")
          (JString "https://play.google.com/store/apps/details?id=org.mozilla.firefox")
          (JString "Browse the web.")
          (JNumber (Num 100000000)) (JNumber (Num 450000000))
          (JString "https://play-lh.googleusercontent.com/icon")
          (JString "Communication") JUndefined
          (JString "2011-03-29") (JNumber (Num 1700000000123))
          (JString "Mozilla") (JString "android-marketplace@mozilla.com")
          (JString "Mozilla") JUndefined (JString "https://www.mozilla.org")
          JUndefined (JNumber (Num 4)) (JNumber (Num 250000))
          (JNumber (Num 5600000)) (JString "{}").

Definition gplay_found (appId : sqlval) : provided :=
  if sql_eq appId (SText "org.mozilla.firefox")
  then Resolves (Some firefox_meta)
  else Resolves None.

(** The sample table after a pass in which Google Play rejected the one
    package it was asked about. *)
Definition table_with_error : Db :=
  db_after (enrich_pass Sample.gplay_down Sample.store_quiet Sample.no_dates)
           Sample.table.
End Shop.
(** * Properties *)

(** A table that received a row is not the table it was. *)
Ltac grew :=
  cbn [rows]; let E := fresh in
  intros E; apply (f_equal (@List.length _)) in E;
  rewrite length_app in E; simpl in E; lia.

(** No insertion is logged in a trace made of the listed events and of the
    resolver's. *)
Ltac no_insertion Hr :=
  let k := fresh "k" in let H := fresh "H" in
  intros k H; cbn in H; repeat rewrite in_app_iff in H; cbn in H;
  repeat match goal with
         | H : _ \/ _ |- _ => destruct H as [H|H]
         | H : False |- _ => destruct H
         | H : _ = InfoInserted _ |- _ => discriminate H
         | H : In (InfoInserted _) _ |- _ => now apply Hr in H
         end.

(** ** Strings *)

Lemma prefix_append (p r : string) : String.prefix p (p ++ r) = true.
Proof.
  induction p as [|c p IH]; simpl.
  - destruct r; reflexivity.
  - destruct (ascii_dec c c) as [_|ne]; [exact IH | contradiction].
Qed.

Lemma prefix_split (p s : string) :
  String.prefix p s = true -> s = p ++ JsString.drop (String.length p) s.
Proof.
  revert s; induction p as [|c p IH]; intros s H; simpl.
  - reflexivity.
  - destruct s as [|d s]; simpl in H; [discriminate|].
    destruct (ascii_dec c d) as [->|]; [|discriminate].
    simpl. f_equal. apply IH, H.
Qed.

Lemma replace_prefix (p rep s : string) :
  String.prefix p s = true ->
  JsString.replace p rep s = rep ++ JsString.drop (String.length p) s.
Proof.
  intros H.
  assert (JsString.replace p rep s
          = if String.prefix p s then rep ++ JsString.drop (String.length p) s
            else JsString.replace p rep s) as E
    by (destruct s; cbn [JsString.replace]; destruct (String.prefix p _); reflexivity).
  rewrite E, H. reflexivity.
Qed.

Lemma split_not_nil (c : ascii) (s : string) : JsString.split c s <> [].
Proof.
  destruct s as [|a s]; simpl; [discriminate|].
  destruct (Ascii.eqb a c); [discriminate|].
  destruct (JsString.split c s); discriminate.
Qed.

Lemma first_split (c : ascii) (s : string) :
  JsString.first (JsString.split c s) = JsString.before c s.
Proof.
  induction s as [|a s IH]; simpl; [reflexivity|].
  destruct (Ascii.eqb a c); [reflexivity|].
  destruct (JsString.split c s) as [|p ps]; simpl in *; rewrite <- IH; reflexivity.
Qed.

Lemma includes_char (c a : ascii) (s : string) :
  JsString.includes (String a s) (String c EmptyString)
  = Ascii.eqb a c || JsString.includes s (String c EmptyString).
Proof.
  simpl. destruct (ascii_dec c a) as [->|ne].
  - rewrite Ascii.eqb_refl. destruct s; reflexivity.
  - assert (Ascii.eqb a c = false) as ->
      by (apply Ascii.eqb_neq; congruence).
    reflexivity.
Qed.

Lemma split_without (c : ascii) (s : string) :
  JsString.includes s (String c EmptyString) = false -> JsString.split c s = [s].
Proof.
  induction s as [|a s IH]; intros H; [reflexivity|].
  rewrite includes_char in H. apply orb_false_iff in H as [Ha Hs].
  simpl. rewrite Ha, (IH Hs). reflexivity.
Qed.

Lemma split_with (c : ascii) (s : string) :
  JsString.includes s (String c EmptyString) = true ->
  exists p q ps, JsString.split c s = p :: q :: ps.
Proof.
  induction s as [|a s IH]; intros H; [discriminate|].
  rewrite includes_char in H. simpl.
  destruct (Ascii.eqb a c) eqn:Ha.
  - destruct (JsString.split c s) as [|q ps] eqn:E.
    + now apply split_not_nil in E.
    + now exists EmptyString, q, ps.
  - destruct (IH H) as (p & q & ps & ->). now exists (String a p), q, ps.
Qed.

Lemma after_last_without (c : ascii) (s : string) :
  JsString.includes s (String c EmptyString) = false -> JsString.after_last c s = s.
Proof.
  destruct s as [|a s]; intros H; [reflexivity|].
  rewrite includes_char in H. apply orb_false_iff in H as [Ha Hs].
  simpl JsString.after_last. rewrite Hs, Ha. reflexivity.
Qed.

Lemma final_split (c : ascii) (s : string) :
  JsString.final (JsString.split c s) = JsString.after_last c s.
Proof.
  unfold JsString.final.
  induction s as [|a s IH]; [reflexivity|].
  simpl JsString.after_last.
  destruct (JsString.includes s (String c EmptyString)) eqn:Hs.
  - destruct (split_with c s Hs) as (p & q & ps & E).
    rewrite <- IH. simpl JsString.split. rewrite E.
    destruct (Ascii.eqb a c); reflexivity.
  - simpl JsString.split. rewrite (split_without c s Hs).
    destruct (Ascii.eqb a c); reflexivity.
Qed.

Lemma prefixes_disjoint (url : string) :
  JsString.startsWith url apple_prefix = true ->
  JsString.startsWith url play_prefix = false.
Proof.
  unfold JsString.startsWith. intros H.
  rewrite (prefix_split _ _ H). reflexivity.
Qed.

(** ** The resolver *)

Lemma resolved_play (url : string) :
  JsString.startsWith url play_prefix = true ->
  resolved url = Return (JString (android_policy url)).
Proof.
  intros H. unfold resolved, getPackageOrItunesId. rewrite H. cbn [fst].
  unfold android_policy. rewrite first_split.
  rewrite (replace_prefix _ _ _ H). reflexivity.
Qed.

Lemma resolved_apple (url : string) :
  JsString.startsWith url apple_prefix = true ->
  resolved url
  = Return (JString (JsString.replace "id" EmptyString (ios_last_segment url))).
Proof.
  intros H. unfold resolved, getPackageOrItunesId.
  rewrite (prefixes_disjoint _ H), H. cbn [fst].
  unfold ios_last_segment. rewrite final_split, first_split.
  rewrite (replace_prefix _ _ _ H). reflexivity.
Qed.

Lemma resolved_elsewhere (url : string) :
  JsString.startsWith url play_prefix = false ->
  JsString.startsWith url apple_prefix = false ->
  getPackageOrItunesId (JString url) = (Return JNull, [DbgParsedUrl url JNull]).
Proof.
  intros Hp Ha. unfold getPackageOrItunesId. rewrite Hp, Ha. reflexivity.
Qed.

Lemma replace_leading (tok s : string) :
  String.prefix tok s = true ->
  JsString.replace tok EmptyString s = strip_leading tok s.
Proof.
  intros H. unfold strip_leading. rewrite H. now rewrite replace_prefix.
Qed.

(** C4, as the claim words it, fails: on an Apple URL whose last path segment
    does not begin with [id] there is no leading token to strip, yet the
    resolver deletes the first [id] it finds inside the segment. *)
Lemma C4_leading_id_counterexample :
  JsString.startsWith "https://apps.apple.com/us/app/video-editor" apple_prefix = true
  /\ ios_policy "https://apps.apple.com/us/app/video-editor" = "video-editor"
  /\ resolved "https://apps.apple.com/us/app/video-editor"
     = Return (JString "veo-editor")
  /\ resolved "https://apps.apple.com/us/app/video-editor"
     <> Return (JString (ios_policy "https://apps.apple.com/us/app/video-editor")).
Proof.
  repeat split; try reflexivity. vm_compute. discriminate.
Qed.

(** C4, amended: the documented iOS URL resolves to 284882215, and for every
    URL that starts with the Apple prefix the resolver strips the prefix,
    drops everything from the first [?], takes the last [/]-separated segment
    and deletes the first occurrence of [id] in it; that is the leading token,
    and the result the specification's policy, whenever the segment begins
    with [id]. *)
Theorem C4_ios_url_resolution (url : string)
    (Hurl : JsString.startsWith url apple_prefix = true) :
  resolved "https://apps.apple.com/us/app/facebook/id284882215?uo=4"
  = Return (JString "284882215")
  /\ resolved url
     = Return (JString (JsString.replace "id" EmptyString (ios_last_segment url)))
  /\ (String.prefix "id" (ios_last_segment url) = true ->
      resolved url = Return (JString (ios_policy url))).
Proof.
  split; [reflexivity|]. split.
  - apply resolved_apple, Hurl.
  - intros Hid. rewrite (resolved_apple _ Hurl).
    unfold ios_policy. now rewrite replace_leading.
Qed.

Lemma C4_ios_url_resolution_witness :
  JsString.startsWith "https://apps.apple.com/us/app/facebook/id284882215?uo=4"
                      apple_prefix = true
  /\ resolved "https://apps.apple.com/us/app/facebook/id284882215?uo=4"
     = Return (JString (ios_policy
         "https://apps.apple.com/us/app/facebook/id284882215?uo=4")).
Proof.
  split; [reflexivity|].
  apply (C4_ios_url_resolution
           "https://apps.apple.com/us/app/facebook/id284882215?uo=4");
    reflexivity.
Defined.

(** C5: the documented Android URL resolves to com.einnovation.temu, and for
    every URL that starts with the Google Play details prefix the resolver
    strips the prefix up to the [id] parameter and drops everything from the
    first [&] on. *)
Theorem C5_android_url_resolution (url : string)
    (Hurl : JsString.startsWith url play_prefix = true) :
  resolved "https://play.google.com/store/apps/details?id=com.einnovation.temu&hl=en_US"
  = Return (JString "com.einnovation.temu")
  /\ resolved url
     = Return (JString (JsString.before "&"
                 (JsString.drop (String.length play_prefix) url)))
  /\ url = play_prefix ++ JsString.drop (String.length play_prefix) url.
Proof.
  split; [reflexivity|]. split.
  - apply resolved_play, Hurl.
  - apply prefix_split, Hurl.
Qed.

Lemma C5_android_url_resolution_witness :
  JsString.startsWith "https://play.google.com/store/apps/details?id=org.mozilla.firefox&hl=de"
                      play_prefix = true
  /\ resolved "https://play.google.com/store/apps/details?id=org.mozilla.firefox&hl=de"
     = Return (JString "org.mozilla.firefox").
Proof.
  split; [reflexivity|].
  apply (C5_android_url_resolution
           "https://play.google.com/store/apps/details?id=org.mozilla.firefox&hl=de").
  reflexivity.
Defined.

(** ** Ingestion: the loop body is check-then-insert of the candidate *)

Lemma existsb_filter {A} (p : A -> bool) (l : list A) :
  (0 <? List.length (filter p l))%nat = existsb p l.
Proof.
  induction l as [|x l IH]; simpl; [reflexivity|].
  destruct (p x); simpl; [reflexivity | exact IH].
Qed.

Lemma taken_key (key : string) (db : Db) :
  taken Row.platformAppKey (SText key) db
  = existsb (platformAppKey_is (SText key)) (rows db).
Proof. reflexivity. Qed.

Lemma resolver_trace (url : jsval) (k : string) :
  ~ In (InfoInserted k) (snd (getPackageOrItunesId url)).
Proof.
  destruct url as [| |u|n]; simpl; try tauto.
  destruct (JsString.startsWith u play_prefix);
    [|destruct (JsString.startsWith u apple_prefix)];
    simpl; intros [H|[]]; discriminate.
Qed.

(** The loop body never lets an exception out, changes the table as
    [persist] says, and logs an insertion only when a row was added. *)
Lemma addApp_run (app : App.t) (db : Db) :
  fst (addApp app db) = (Return tt, persist (candidate app) db)
  /\ forall k, In (InfoInserted k) (snd (addApp app db)) ->
               rows (persist (candidate app) db) <> rows db.
Proof.
  pose proof (resolver_trace (App.appStoreUrl app)) as Hr.
  unfold addApp, candidate, platform_of, try_catch, bind.
  destruct (App.odata_type app) as [| |t|n];
    try (split; [reflexivity | no_insertion Hr]).
  destruct (JsString.includes t "android").
  - cbn -[platformAppKey_of appIdentifier_of new_row Nat.ltb run_insert].
    rewrite existsb_filter.
    destruct (existsb _ (rows db)) eqn:Hk.
    + split; [reflexivity | no_insertion Hr].
    + unfold run_insert. rewrite taken_key, Hk.
      destruct (taken Row.intuneAppId _ db) eqn:Hi.
      * split; [reflexivity | no_insertion Hr].
      * split; [reflexivity|]. intros k _. grew.
  - destruct (JsString.includes t "ios");
      [|split; [reflexivity | no_insertion Hr]].
    cbn -[platformAppKey_of appIdentifier_of new_row getPackageOrItunesId
          Nat.ltb run_insert].
    destruct (getPackageOrItunesId (App.appStoreUrl app)) as [[itunesId|e] evs].
    + cbn -[platformAppKey_of appIdentifier_of new_row Nat.ltb run_insert].
      rewrite existsb_filter.
      destruct (existsb _ (rows db)) eqn:Hk.
      * split; [reflexivity | no_insertion Hr].
      * unfold run_insert. rewrite taken_key, Hk.
        destruct (taken Row.intuneAppId _ db) eqn:Hi.
        -- split; [reflexivity | no_insertion Hr].
        -- split; [reflexivity|]. intros k _. grew.
    + split; [reflexivity | no_insertion Hr].
Qed.

Lemma addApp_db (app : App.t) (db : Db) :
  db_after (addApp app) db = persist (candidate app) db.
Proof.
  unfold db_after. now rewrite (proj1 (addApp_run app db)).
Qed.

Lemma addApp_returns (app : App.t) (db : Db) :
  result_of (addApp app) db = Return tt.
Proof.
  unfold result_of. now rewrite (proj1 (addApp_run app db)).
Qed.

Lemma addAppsToDb_cons (app : App.t) (rest : list App.t) (db : Db) :
  addAppsToDb (app :: rest) db
  = (fst (fst (addAppsToDb rest (persist (candidate app) db))),
     snd (fst (addAppsToDb rest (persist (candidate app) db))),
     (snd (addApp app db)
      ++ snd (addAppsToDb rest (persist (candidate app) db)))%list).
Proof.
  cbn [addAppsToDb]. unfold bind.
  pose proof (proj1 (addApp_run app db)) as E.
  destruct (addApp app db) as [[o d] l]. cbn in E. injection E as -> ->.
  cbn [snd]. now destruct (addAppsToDb rest _) as [[o' d'] l'].
Qed.

Lemma addAppsToDb_db (apps : list App.t) (db : Db) :
  db_after (addAppsToDb apps) db = ingest apps db.
Proof.
  revert db. induction apps as [|app rest IH]; intros db; [reflexivity|].
  unfold db_after in *. rewrite addAppsToDb_cons. cbn [fst snd].
  apply IH.
Qed.

Lemma addAppsToDb_returns (apps : list App.t) (db : Db) :
  result_of (addAppsToDb apps) db = Return tt.
Proof.
  revert db. induction apps as [|app rest IH]; intros db; [reflexivity|].
  unfold result_of in *. rewrite addAppsToDb_cons. cbn [fst snd].
  apply IH.
Qed.

Lemma ingest_app (pre post : list App.t) (db : Db) :
  ingest (pre ++ post) db = ingest post (ingest pre db).
Proof. apply fold_left_app. Qed.

Lemma existsb_incl {A} (p : A -> bool) (l l' : list A) :
  incl l l' -> existsb p l = true -> existsb p l' = true.
Proof.
  intros Hi H. apply existsb_exists in H as (x & Hx & Hp).
  apply existsb_exists. exists x. split; [apply Hi, Hx | exact Hp].
Qed.

Lemma candidate_key (app : App.t) (key : string) (r : Row.t) :
  candidate app = Some (key, r) -> Row.platformAppKey r = SText key.
Proof.
  unfold candidate. destruct (App.odata_type app) as [| |t|n]; try discriminate.
  destruct (JsString.includes t "android").
  - intros E. injection E as <- <-. reflexivity.
  - destruct (JsString.includes t "ios"); [|discriminate].
    destruct (fst (getPackageOrItunesId _)); [|discriminate].
    intros E. injection E as <- <-. reflexivity.
Qed.

Lemma persist_incl (c : option (string * Row.t)) (db : Db) :
  incl (rows db) (rows (persist c db)).
Proof.
  destruct c as [[key r]|]; cbn [persist]; [|apply incl_refl].
  destruct (existsb _ _); [apply incl_refl|].
  destruct (taken _ _ _); [apply incl_refl|].
  cbn [rows]. apply incl_appl, incl_refl.
Qed.

Lemma ingest_incl (apps : list App.t) (db : Db) :
  incl (rows db) (rows (ingest apps db)).
Proof.
  revert db. induction apps as [|app rest IH]; intros db; [apply incl_refl|].
  cbn [ingest fold_left]. eapply incl_tran; [apply persist_incl | apply IH].
Qed.

(** Once a record went through the loop body, every later table refuses it:
    its key is there, or its [intuneAppId] is. *)
Lemma persist_blocked (key : string) (r : Row.t) (db db' : Db) :
  Row.platformAppKey r = SText key ->
  incl (rows (persist (Some (key, r)) db)) (rows db') ->
  existsb (platformAppKey_is (SText key)) (rows db') = true
  \/ taken Row.intuneAppId (Row.intuneAppId r) db' = true.
Proof.
  intros Hkey Hincl. cbn [persist] in Hincl.
  destruct (existsb (platformAppKey_is (SText key)) (rows db)) eqn:Hk.
  - left. eapply existsb_incl; eassumption.
  - destruct (taken Row.intuneAppId (Row.intuneAppId r) db) eqn:Hi.
    + right. unfold taken in *. eapply existsb_incl; eassumption.
    + left. apply existsb_exists. exists (with_id (seq db + 1) r). split.
      * apply Hincl. cbn [rows]. apply in_or_app. right. now left.
      * unfold platformAppKey_is. cbn. rewrite Hkey. cbn.
        apply String.eqb_refl.
Qed.

Lemma persist_stable (app : App.t) (db db' : Db) :
  incl (rows (persist (candidate app) db)) (rows db') ->
  persist (candidate app) db' = db'.
Proof.
  destruct (candidate app) as [[key r]|] eqn:Hc; [|reflexivity].
  intros Hincl.
  destruct (persist_blocked key r db db' (candidate_key _ _ _ Hc) Hincl)
    as [H|H]; cbn [persist]; rewrite H; [reflexivity|].
  now destruct (existsb _ _).
Qed.

Lemma ingest_stable (apps : list App.t) (db db' : Db) :
  incl (rows (ingest apps db)) (rows db') ->
  forall app, In app apps -> persist (candidate app) db' = db'.
Proof.
  revert db. induction apps as [|a rest IH]; intros db Hincl app Hin.
  - destruct Hin.
  - cbn [ingest fold_left] in Hincl. destruct Hin as [->|Hin].
    + apply persist_stable with (db := db).
      eapply incl_tran; [apply ingest_incl | exact Hincl].
    + eapply IH; eassumption.
Qed.

Lemma ingest_fixed (apps : list App.t) (db : Db) :
  (forall app, In app apps -> persist (candidate app) db = db) ->
  ingest apps db = db.
Proof.
  induction apps as [|a rest IH]; intros H; [reflexivity|].
  cbn [ingest fold_left]. rewrite (H a (or_introl eq_refl)).
  apply IH. intros app Hin. apply H. now right.
Qed.

Lemma trace_fixed (apps : list App.t) (db : Db) :
  (forall app, In app apps -> persist (candidate app) db = db) ->
  forall k, ~ In (InfoInserted k) (trace_of (addAppsToDb apps) db).
Proof.
  unfold trace_of.
  induction apps as [|a rest IH]; intros H k; [intros []|].
  rewrite addAppsToDb_cons. cbn [snd]. intros Hin.
  apply in_app_or in Hin as [Hin|Hin].
  - apply (proj2 (addApp_run a db)) in Hin.
    now rewrite (H a (or_introl eq_refl)) in Hin.
  - rewrite (H a (or_introl eq_refl)) in Hin.
    revert Hin. apply IH. intros app Happ. apply H. now right.
Qed.

(** C1: ingesting the same response a second time leaves the table exactly
    as the first run left it and logs no insertion; every record that
    resolves to a key is then refused, its [platformAppKey] being in the
    table already (or, for a record whose insert the first run saw rejected,
    its [intuneAppId] being taken by another row). *)
Theorem C1_ingestion_idempotent (apps : list App.t) (db : Db) :
  let once := db_after (addAppsToDb apps) db in
  db_after (addAppsToDb apps) once = once
  /\ (forall k, ~ In (InfoInserted k) (trace_of (addAppsToDb apps) once))
  /\ (forall app key r,
        In app apps -> candidate app = Some (key, r) ->
        existsb (platformAppKey_is (SText key)) (rows once) = true
        \/ taken Row.intuneAppId (Row.intuneAppId r) once = true).
Proof.
  intros once. subst once. rewrite !addAppsToDb_db.
  pose proof (ingest_stable apps db (ingest apps db) (incl_refl _)) as Hst.
  split; [|split].
  - now apply ingest_fixed.
  - now apply trace_fixed.
  - intros app key r Hin Hc. specialize (Hst app Hin).
    rewrite Hc in Hst. cbn [persist] in Hst.
    destruct (existsb _ _); [now left|].
    destruct (taken _ _ _); [now right|].
    exfalso. apply (f_equal rows) in Hst. revert Hst. grew.
Qed.

(** C3: a record whose discriminator string contains neither android nor ios
    adds no row, the loop body ends normally after logging the unsupported
    platform, and the records before and after it are ingested as if it were
    not in the response. *)
Theorem C3_unrecognised_platform_skipped
    (app : App.t) (pre post : list App.t) (db : Db)
    (Happ : unrecognised app) :
  db_after (addApp app) db = db
  /\ result_of (addApp app) db = Return tt
  /\ (exists t, App.odata_type app = JString t
                /\ trace_of (addApp app) db = [ErrUnsupportedPlatform t])
  /\ db_after (addAppsToDb (pre ++ app :: post)) db
     = db_after (addAppsToDb (pre ++ post)) db
  /\ result_of (addAppsToDb (pre ++ app :: post)) db = Return tt.
Proof.
  destruct Happ as (t & Ht & Ha & Hi).
  assert (Hc : candidate app = None)
    by (unfold candidate; now rewrite Ht, Ha, Hi).
  split; [|split; [|split; [|split]]].
  - now rewrite addApp_db, Hc.
  - apply addApp_returns.
  - exists t. split; [exact Ht|].
    unfold trace_of, addApp, platform_of, try_catch, bind.
    now rewrite Ht, Ha, Hi.
  - rewrite !addAppsToDb_db, !ingest_app. cbn [ingest fold_left].
    now rewrite Hc.
  - apply addAppsToDb_returns.
Qed.

Lemma C3_unrecognised_platform_skipped_witness :
  unrecognised Sample.web_link
  /\ db_after (addAppsToDb ([Sample.facebook] ++ Sample.web_link :: [Sample.firefox]))
              empty_db
     = db_after (addAppsToDb ([Sample.facebook] ++ [Sample.firefox])) empty_db.
Proof.
  assert (H : unrecognised Sample.web_link)
    by (exists "#microsoft.graph.webApp"; repeat split; reflexivity).
  split; [exact H|].
  apply (C3_unrecognised_platform_skipped
           Sample.web_link [Sample.facebook] [Sample.firefox] empty_db H).
Defined.

(** ** Records that resolve to no identifier *)

Lemma falsy_key (platform : string) (app : App.t) :
  truthy (App.packageId app) = false ->
  platformAppKey_of platform app JNull = platform ++ "-null"
  /\ appIdentifier_of app JNull = JNull.
Proof.
  intros H. unfold platformAppKey_of, appIdentifier_of, js_or. now rewrite H.
Qed.



(** ** Android records without a package identifier *)

Lemma addApp_android_without_package (app : App.t) (db : Db) :
  android_without_package app ->
  addApp app db
  = if taken Row.platformAppKey (SText "android-null") db then
      (Return tt, db, [DbgAlreadyExists "android-null"])
    else if taken Row.intuneAppId (bind_param (App.id app)) db then
      (Return tt, db,
       [DbgSqliteRun; DbgSqliteErr (SqliteConstraint "app.intuneAppId");
        ErrInsertion (SqliteConstraint "app.intuneAppId")])
    else
      (Return tt,
       mkDb (rows db
             ++ [new_row (seq db + 1) (bind_param (App.id app))
                         (SText "android-null") SNull SNull SNull
                         (SText "android")])%list
            (seq db + 1),
       [DbgSqliteRun; DbgSqliteOk; InfoInserted "android-null"]).
Proof.
  intros [(t & Ht & Ha) Hpkg].
  assert (Hf : truthy (App.packageId app) = false) by now rewrite Hpkg.
  destruct (falsy_key "android" app Hf) as [Ek Ea].
  change ("android" ++ "-null") with "android-null" in Ek.
  unfold addApp, platform_of, try_catch, bind. rewrite Ht, Ha.
  cbn -[platformAppKey_of appIdentifier_of new_row Nat.ltb run_insert].
  rewrite Ek, Ea, existsb_filter, <- taken_key, Hpkg.
  destruct (taken Row.platformAppKey _ db) eqn:Hk; [reflexivity|].
  unfold run_insert. rewrite Hk.
  destruct (taken Row.intuneAppId _ db); reflexivity.
Qed.

Lemma taken_after_insert (db : Db) (r : Row.t) (z : Z) (key : string) :
  Row.platformAppKey r = SText key ->
  taken Row.platformAppKey (SText key) (mkDb (rows db ++ [r])%list z) = true.
Proof.
  intros H. unfold taken. cbn [rows]. rewrite existsb_app. cbn.
  rewrite H. cbn. rewrite String.eqb_refl. now rewrite orb_true_r.
Qed.

Lemma addAppsToDb_all_collide (rest : list App.t) (db : Db) :
  Forall android_without_package rest ->
  taken Row.platformAppKey (SText "android-null") db = true ->
  addAppsToDb rest db
  = (Return tt, db, map (fun _ => DbgAlreadyExists "android-null") rest).
Proof.
  intros Hrest Hk. induction Hrest as [|a rest Ha _ IH]; [reflexivity|].
  cbn [addAppsToDb]. unfold bind.
  rewrite (addApp_android_without_package a db Ha), Hk, IH. reflexivity.
Qed.

(** C10: for an Android record whose [packageId] is [null] the resolver is
    not called, so the loop body does the same whatever the store URL is, and
    logs no parsed URL; into a table that holds neither the key android-null
    nor the record's [intuneAppId] the record is inserted under that key with
    a NULL [appIdentifier], and every further such record of the response is
    skipped as already existing, so that only the first is stored. *)
Theorem C10_android_null_package_collide
    (app : App.t) (rest : list App.t) (db : Db)
    (Happ : android_without_package app)
    (Hrest : Forall android_without_package rest)
    (Hkey : taken Row.platformAppKey (SText "android-null") db = false)
    (Hid : taken Row.intuneAppId (bind_param (App.id app)) db = false) :
  (forall url, addApp (with_appStoreUrl url app) db = addApp app db)
  /\ (forall u v, ~ In (DbgParsedUrl u v) (trace_of (addApp app) db))
  /\ addAppsToDb (app :: rest) db
     = (Return tt,
        mkDb (rows db
              ++ [new_row (seq db + 1) (bind_param (App.id app))
                          (SText "android-null") SNull SNull SNull
                          (SText "android")])%list
             (seq db + 1),
        ([DbgSqliteRun; DbgSqliteOk; InfoInserted "android-null"]
         ++ map (fun _ => DbgAlreadyExists "android-null") rest)%list).
Proof.
  pose proof (addApp_android_without_package app db Happ) as E.
  rewrite Hkey, Hid in E.
  split; [|split].
  - intros url. rewrite E.
    rewrite (addApp_android_without_package (with_appStoreUrl url app) db Happ).
    cbn [with_appStoreUrl App.id]. now rewrite Hkey, Hid.
  - intros u v. unfold trace_of. rewrite E. cbn.
    intros [H|[H|[H|[]]]]; discriminate.
  - cbn [addAppsToDb]. unfold bind. rewrite E.
    rewrite addAppsToDb_all_collide;
      [reflexivity | exact Hrest | now apply taken_after_insert].
Qed.

Lemma C10_android_null_package_collide_witness :
  android_without_package Sample.temu
  /\ Forall android_without_package [Sample.android_lob; Sample.temu]
  /\ rows (db_after (addAppsToDb [Sample.temu; Sample.android_lob; Sample.temu])
                    empty_db)
     = [new_row 1 (SText "a-02") (SText "android-null") SNull SNull SNull
                (SText "android")].
Proof.
  assert (H1 : android_without_package Sample.temu)
    by (split; [exists "#microsoft.graph.androidStoreApp"; split|]; reflexivity).
  assert (H2 : android_without_package Sample.android_lob)
    by (split; [exists "#microsoft.graph.androidLobApp"; split|]; reflexivity).
  assert (H3 : Forall android_without_package [Sample.android_lob; Sample.temu])
    by exact (Forall_cons _ H2 (Forall_cons _ H1 (Forall_nil _))).
  split; [exact H1|]. split; [exact H3|].
  unfold db_after.
  rewrite (proj2 (proj2 (C10_android_null_package_collide
             Sample.temu [Sample.android_lob; Sample.temu] empty_db
             H1 H3 eq_refl eq_refl))).
  reflexivity.
Defined.

(** ** Enrichment: a provider error is cached in the title *)

Lemma sql_eq_text (v : sqlval) (k : string) :
  sql_eq v (SText k) = true <-> v = SText k.
Proof.
  destruct v as [|s|z]; cbn; split; try discriminate.
  - intros H. apply String.eqb_eq in H. now subst.
  - intros E. injection E as ->. apply String.eqb_refl.
Qed.

(** A selection of rows has distinct keys when the table has. *)
Lemma selection_keys_distinct (where_ : Row.t -> bool) (table : list Row.t) :
  NoDup (map Row.platformAppKey table) ->
  NoDup (map Row.platformAppKey (filter where_ table)).
Proof.
  intros Hd. induction table as [|a l IH]; cbn; [constructor|].
  cbn in Hd. inversion Hd as [|? ? Hn Hl]; subst.
  destruct (where_ a); cbn; [|now apply IH].
  constructor; [|now apply IH].
  intros Hin. apply Hn. apply in_map_iff in Hin as (x & Hx & Hin).
  apply filter_In in Hin as [Hin _]. apply in_map_iff. now exists x.
Qed.

Lemma NoDup_map_same {A B} (f : A -> B) (l : list A) (a b : A) :
  NoDup (map f l) -> In a l -> In b l -> f a = f b -> a = b.
Proof.
  induction l as [|c l IH]; cbn; intros H Ha Hb E; [destruct Ha|].
  inversion H as [|? ? Hn Hd]; subst.
  destruct Ha as [->|Ha], Hb as [->|Hb]; try reflexivity.
  - exfalso. apply Hn. rewrite E. now apply in_map.
  - exfalso. apply Hn. rewrite <- E. now apply in_map.
  - now apply IH.
Qed.

Section EnrichmentProperties.

Variable gplay_app : sqlval -> provided.
Variable store_app : sqlval -> provided.
Variable Date_getTime : string -> jsnum.

Local Abbreviation enrich := (enrichAppMetadata gplay_app store_app Date_getTime).
Local Abbreviation each := (enrich_each gplay_app store_app Date_getTime).
Local Abbreviation pass := (enrich_pass gplay_app store_app Date_getTime).
Local Abbreviation asked := (fetch gplay_app store_app).

(** Every call of [enrichAppMetadata] returns, and rewrites the table row by
    row, keeping the keys and leaving alone the rows of other keys. *)
Lemma enrich_shape (appData : Row.t) (db : Db) :
  exists g,
    fst (enrich appData db) = (Return tt, mkDb (map g (rows db)) (seq db))
    /\ (forall x, Row.platformAppKey (g x) = Row.platformAppKey x)
    /\ (forall x, platformAppKey_is (Row.platformAppKey appData) x = false ->
                  g x = x).
Proof.
  assert (idle : exists g : Row.t -> Row.t,
             (Return tt, db) = (Return tt, mkDb (map g (rows db)) (seq db))
             /\ (forall x, Row.platformAppKey (g x) = Row.platformAppKey x)
             /\ (forall x, platformAppKey_is (Row.platformAppKey appData) x = false ->
                           g x = x)).
  { exists (fun x => x). rewrite map_id. now destruct db. }
  unfold enrichAppMetadata, bind, lift. cbn [fst snd].
  destruct (fst (fetch gplay_app store_app appData)) as [[message|[m|]]|];
    try exact idle.
  - eexists. cbn. split; [reflexivity|]. split; intros x.
    + now destruct (platformAppKey_is _ x).
    + now intros ->.
  - eexists. cbn. split; [reflexivity|]. split; intros x.
    + now destruct (platformAppKey_is _ x).
    + now intros ->.
Qed.

Lemma each_cons (appData : Row.t) (rest : list Row.t) (db : Db) :
  fst (each (appData :: rest) db)
  = fst (each rest (snd (fst (enrich appData db)))).
Proof.
  cbn [enrich_each]. unfold bind.
  destruct (enrich_shape appData db) as (g & E & _).
  destruct (enrichAppMetadata _ _ _ appData db) as [[o d] l].
  cbn in E. injection E as -> ->. cbn [fst snd].
  now destruct (enrich_each _ _ _ rest _) as [[o' d'] l'].
Qed.

Lemma each_app (pre post : list Row.t) (db : Db) :
  fst (each (pre ++ post) db) = fst (each post (snd (fst (each pre db)))).
Proof.
  revert db. induction pre as [|a pre IH]; intros db; [reflexivity|].
  cbn [app]. rewrite !each_cons. apply IH.
Qed.

(** A run of the loop over rows of other keys than [k] leaves the rows of
    key [k] alone. *)
Lemma each_shape (k : string) (l : list Row.t) (db : Db) :
  (forall r', In r' l -> Row.platformAppKey r' <> SText k) ->
  exists g,
    fst (each l db) = (Return tt, mkDb (map g (rows db)) (seq db))
    /\ (forall x, Row.platformAppKey (g x) = Row.platformAppKey x)
    /\ (forall x, Row.platformAppKey x = SText k -> g x = x).
Proof.
  revert db. induction l as [|a l IH]; intros db Hl.
  - exists (fun x => x). rewrite map_id. now destruct db.
  - destruct (enrich_shape a db) as (g1 & E1 & K1 & O1).
    rewrite each_cons, E1. cbn [fst snd].
    destruct (IH (mkDb (map g1 (rows db)) (seq db))) as (g2 & E2 & K2 & O2).
    { intros r' Hr'. apply Hl. now right. }
    exists (fun x => g2 (g1 x)). rewrite E2. cbn [rows seq]. rewrite map_map.
    split; [reflexivity|]. split; intros x.
    + now rewrite K2, K1.
    + intros Hx. rewrite (O1 x).
      * now apply O2.
      * unfold platformAppKey_is. rewrite Hx.
        destruct (Row.platformAppKey a) as [|ka|z] eqn:Ka; try reflexivity.
        cbn. apply String.eqb_neq. intros ->.
        apply (Hl a (or_introl eq_refl)). exact Ka.
Qed.


(** ** Enrichment: the two timestamp shapes meet *)

Lemma normalize_dates_released (m : Meta.t) :
  Meta.released (normalize_dates Date_getTime m)
  = normalize_timestamp Date_getTime (Meta.released m).
Proof. reflexivity. Qed.

Lemma normalize_dates_updated (m : Meta.t) :
  Meta.updated (normalize_dates Date_getTime m)
  = normalize_timestamp Date_getTime (Meta.updated m).
Proof. reflexivity. Qed.

(** C6: when [new Date(s).getTime()] is [ms], the string [s] and the number
    [ms] are normalized to the same epoch seconds, the floor of [ms / 1000],
    in [released] as in [updated], and that is the integer bound to the
    [releasedAt] and [updatedAt] columns. *)
Theorem C6_timestamps_converge
    (s : string) (ms : Z) (m : Meta.t) (appData r : Row.t) (genre : jsval)
    (Hdate : Date_getTime s = Num ms) :
  let from_string :=
    normalize_dates Date_getTime
      (Meta.set_updated (JString s) (Meta.set_released (JString s) m)) in
  let from_millis :=
    normalize_dates Date_getTime
      (Meta.set_updated (JNumber (Num ms))
                        (Meta.set_released (JNumber (Num ms)) m)) in
  Meta.released from_string = Meta.released from_millis
  /\ Meta.updated from_string = Meta.updated from_millis
  /\ Meta.released from_millis = JNumber (Num (ms / 1000))
  /\ Meta.updated from_millis = JNumber (Num (ms / 1000))
  /\ (1000 * (ms / 1000) <= ms < 1000 * (ms / 1000) + 1000)%Z
  /\ Row.releasedAt (enriched appData from_string genre r)
     = SInteger (ms / 1000)
  /\ Row.updatedAt (enriched appData from_string genre r)
     = SInteger (ms / 1000).
Proof.
  intros from_string from_millis.
  assert (Es : normalize_timestamp Date_getTime (JString s)
               = JNumber (Num (ms / 1000)))
    by (unfold normalize_timestamp; cbn; now rewrite Hdate).
  assert (Rs : Meta.released from_string = JNumber (Num (ms / 1000)))
    by (subst from_string; now rewrite normalize_dates_released).
  assert (Us : Meta.updated from_string = JNumber (Num (ms / 1000)))
    by (subst from_string; now rewrite normalize_dates_updated).
  repeat split; try reflexivity; try assumption.
  - apply Z.mul_div_le; lia.
  - pose proof (Z.mod_pos_bound ms 1000 ltac:(lia)) as Hm.
    pose proof (Z.div_mod ms 1000 ltac:(lia)) as Hd. lia.
  - cbn [enriched Row.releasedAt]. now rewrite Rs.
  - cbn [enriched Row.updatedAt]. now rewrite Us.
Qed.

End EnrichmentProperties.


Lemma C6_timestamps_converge_witness :
  Sample.utc_midnight "2004-02-05" = Num 1075939200000
  /\ normalize_timestamp Sample.utc_midnight (JString "2004-02-05")
     = normalize_timestamp Sample.utc_midnight (JNumber (Num 1075939200000)).
Proof.
  split; [reflexivity|].
  exact (proj1 (C6_timestamps_converge
                  Sample.utc_midnight "2004-02-05" 1075939200000
                  (Meta.mk JNull JNull JNull JNull JNull JNull JNull JNull
                           JNull JNull JNull JNull JNull JNull JNull JNull
                           JNull JNull JNull JNull)
                  Sample.facebook_row Sample.facebook_row JNull eq_refl)).
Defined.

Lemma C1_ingestion_idempotent_witness :
  db_after (addAppsToDb [Sample.facebook; Sample.firefox; Sample.temu])
           Sample.table
  = Sample.table.
Proof.
  exact (proj1 (C1_ingestion_idempotent
                  [Sample.facebook; Sample.firefox; Sample.temu] empty_db)).
Defined.

(** ** Export *)


(** ** Start-up *)

Lemma startup_without_tenant_flag (c : option string) (d m : bool)
    (o : option string) (env : Env) :
  startup (mkArgv None c d m o) env
  = Exited 1 "error: required option '--tenantId <tenantId>' not specified".
Proof. reflexivity. Qed.

Lemma startup_without_client_flag (t : string) (d m : bool)
    (o : option string) (env : Env) :
  startup (mkArgv (Some t) None d m o) env
  = Exited 1 "error: required option '--clientId <clientId>' not specified".
Proof. reflexivity. Qed.

(** C8 does not hold of the program: with [TENANT_ID], [CLIENT_ID] and
    [CLIENT_SECRET] all set in the environment and neither flag on the
    command line, the process ends with status 1 while the command line is
    parsed, before the fallback to the environment is reached; it does so
    whatever the environment holds, as soon as one of the two flags is
    missing.  The same environment with both flags given starts the run. *)
Theorem C8_environment_fallback_not_reached :
  startup (mkArgv None None false false None)
          (mkEnv (Some "tenant-0") (Some "client-0") (Some "secret-0"))
  = Exited 1 "error: required option '--tenantId <tenantId>' not specified"
  /\ (forall c d m o env, exists msg,
        startup (mkArgv None c d m o) env = Exited 1 msg)
  /\ (forall t d m o env, exists msg,
        startup (mkArgv t None d m o) env = Exited 1 msg)
  /\ startup (mkArgv (Some "tenant-0") (Some "client-0") false false None)
             (mkEnv None None (Some "secret-0"))
     = Running (mkOpts (JString "tenant-0") (JString "client-0")
                       (JString "secret-0") false false "intune_apps").
Proof.
  split; [reflexivity|]. split; [|split; [|reflexivity]].
  - intros. eexists. apply startup_without_tenant_flag.
  - intros [t|] d m o env; eexists.
    + apply startup_without_client_flag.
    + apply startup_without_tenant_flag.
Qed.

(** ** The key invariant is the program's own *)

Lemma NoDup_snoc {A} (l : list A) (a : A) :
  NoDup l -> ~ In a l -> NoDup (l ++ [a]).
Proof.
  induction l as [|b l IH]; cbn; intros Hd Hn.
  - constructor; [intros []|constructor].
  - inversion Hd as [|? ? Hb Hl]; subst. constructor.
    + intros Hin. apply in_app_or in Hin as [Hin|[->|[]]]; [now apply Hb|].
      apply Hn. now left.
    + apply IH; [assumption|]. intros Hin. apply Hn. now right.
Qed.

Lemma keys_ok_empty : keys_ok empty_db.
Proof. split; [constructor | intros r []]. Qed.

Lemma persist_keys_ok (app : App.t) (db : Db) :
  keys_ok db -> keys_ok (persist (candidate app) db).
Proof.
  intros [Hd Ht]. destruct (candidate app) as [[key r]|] eqn:Hc; [|now split].
  pose proof (candidate_key _ _ _ Hc) as Hk. cbn [persist].
  destruct (existsb _ _) eqn:He; [now split|].
  destruct (taken _ _ _); [now split|].
  split; cbn [rows].
  - rewrite map_app. cbn [map]. apply NoDup_snoc; [exact Hd|].
    cbn [with_id new_row Row.platformAppKey]. rewrite Hk. intros Hin.
    apply in_map_iff in Hin as (x & Hx & Hin).
    assert (existsb (platformAppKey_is (SText key)) (rows db) = true) as Hy.
    { apply existsb_exists. exists x. split; [exact Hin|].
      now apply sql_eq_text. }
    congruence.
  - intros x Hx. apply in_app_or in Hx as [Hx|[<-|[]]]; [now apply Ht|].
    exists key. exact Hk.
Qed.

Lemma ingest_keys_ok (apps : list App.t) (db : Db) :
  keys_ok db -> keys_ok (db_after (addAppsToDb apps) db).
Proof.
  rewrite addAppsToDb_db. revert db.
  induction apps as [|a rest IH]; intros db H; [exact H|].
  cbn [ingest fold_left]. apply IH, persist_keys_ok, H.
Qed.

Lemma enrich_keys_ok gplay_app store_app Date_getTime (appData : Row.t) (db : Db) :
  keys_ok db ->
  keys_ok (db_after (enrichAppMetadata gplay_app store_app Date_getTime appData) db).
Proof.
  intros [Hd Ht].
  destruct (enrich_shape gplay_app store_app Date_getTime appData db)
    as (g & E & K & _).
  unfold db_after. rewrite E. cbn [snd]. split; cbn [rows].
  - rewrite map_map. rewrite (map_ext _ Row.platformAppKey K). exact Hd.
  - intros x Hx. apply in_map_iff in Hx as (y & <- & Hy). rewrite K.
    now apply Ht.
Qed.

(** * Further properties of the code *)

(** ** Ingestion keeps the table's constraints *)

Lemma sql_eq_same (v : sqlval) : is_null v = false -> sql_eq v v = true.
Proof.
  destruct v as [|s|z]; cbn; intros H; [discriminate| |].
  - apply String.eqb_refl.
  - apply Z.eqb_refl.
Qed.

Lemma not_taken_fresh (col : Row.t -> sqlval) (v : sqlval) (db : Db) :
  taken col v db = false -> is_null v = false ->
  ~ In v (non_null_values col db).
Proof.
  intros Ht Hv Hin. unfold non_null_values in Hin.
  apply filter_In in Hin as [Hin _].
  apply in_map_iff in Hin as (x & Hx & Hin).
  assert (taken col v db = true) as E.
  { apply existsb_exists. exists x. split; [exact Hin|].
    rewrite Hx. now apply sql_eq_same. }
  congruence.
Qed.

Lemma persist_intune_ids_ok (app : App.t) (db : Db) :
  intune_ids_ok db -> intune_ids_ok (persist (candidate app) db).
Proof.
  intros Hd. destruct (candidate app) as [[key r]|]; [|exact Hd].
  cbn [persist]. destruct (existsb _ _); [exact Hd|].
  destruct (taken _ _ _) eqn:Ht; [exact Hd|].
  unfold intune_ids_ok, non_null_values in *. cbn [rows].
  rewrite map_app, filter_app. cbn [map filter with_id new_row Row.intuneAppId].
  destruct (is_null (Row.intuneAppId r)) eqn:Hn; cbn [negb].
  - now rewrite app_nil_r.
  - apply NoDup_snoc; [exact Hd|]. now apply not_taken_fresh.
Qed.

Lemma persist_rowids_ok (app : App.t) (db : Db) :
  rowids_ok db -> rowids_ok (persist (candidate app) db).
Proof.
  intros [Hd Hb]. destruct (candidate app) as [[key r]|]; [|now split].
  cbn [persist]. destruct (existsb _ _); [now split|].
  destruct (taken _ _ _); [now split|].
  split; cbn [rows seq].
  - rewrite map_app. cbn [map with_id new_row Row.id].
    apply NoDup_snoc; [exact Hd|]. intros Hin.
    apply in_map_iff in Hin as (x & Hx & Hin). apply Hb in Hin. lia.
  - intros x Hx. apply in_app_or in Hx as [Hx|[<-|[]]].
    + apply Hb in Hx. lia.
    + cbn. lia.
Qed.

(** X1: ingestion keeps what the schema declares: after [addAppsToDb] on any
    response, every row has a text [platformAppKey] and no two rows share
    one, no two rows share a non-NULL [intuneAppId], and the rowids are
    distinct and not beyond the AUTOINCREMENT counter. *)
Theorem X1_ingestion_keeps_constraints (apps : list App.t) (db : Db)
    (Hok : table_ok db) :
  table_ok (db_after (addAppsToDb apps) db).
Proof.
  rewrite addAppsToDb_db. revert db Hok.
  induction apps as [|a rest IH]; intros db Hok; [exact Hok|].
  cbn [ingest fold_left]. apply IH.
  destruct Hok as (Hk & Hi & Hr). repeat split.
  - now apply persist_keys_ok.
  - now apply persist_keys_ok.
  - now apply persist_intune_ids_ok.
  - now apply persist_rowids_ok.
  - now apply persist_rowids_ok.
Qed.

Lemma table_ok_empty : table_ok empty_db.
Proof.
  repeat split; try constructor; intros r [].
Qed.

Lemma X1_ingestion_keeps_constraints_witness :
  table_ok empty_db
  /\ table_ok (db_after
                 (addAppsToDb [Sample.facebook; Sample.firefox; Sample.temu;
                               Sample.android_lob; Sample.facebook])
                 empty_db).
Proof.
  split; [exact table_ok_empty|].
  apply (X1_ingestion_keeps_constraints _ empty_db table_ok_empty).
Defined.

(** ** Ingestion only appends *)

Lemma persist_appends (app : App.t) (db : Db) :
  exists added,
    persist (candidate app) db
    = mkDb (rows db ++ added)%list (seq db + Z.of_nat (List.length added))
    /\ (List.length added <= 1)%nat
    /\ Forall fresh_row added.
Proof.
  assert (idle : exists added,
             db = mkDb (rows db ++ added)%list
                       (seq db + Z.of_nat (List.length added))
             /\ (List.length added <= 1)%nat /\ Forall fresh_row added).
  { exists []. rewrite app_nil_r. cbn. rewrite Z.add_0_r.
    split; [now destruct db|]. split; [lia|constructor]. }
  destruct (candidate app) as [[key r]|] eqn:Hc; [|exact idle].
  cbn [persist]. destruct (existsb _ _); [exact idle|].
  destruct (taken _ _ _); [exact idle|].
  exists [with_id (seq db + 1) r]. split; [reflexivity|]. split; [cbn; lia|].
  constructor; [|constructor]. split; [|reflexivity].
  unfold candidate in Hc.
  destruct (App.odata_type app) as [| |t|n]; try discriminate.
  destruct (JsString.includes t "android").
  - injection Hc as _ <-. now left.
  - destruct (JsString.includes t "ios"); [|discriminate].
    destruct (fst (getPackageOrItunesId _)); [|discriminate].
    injection Hc as _ <-. now right.
Qed.

(** X2: ingestion never deletes, moves or rewrites a row: the table after
    [addAppsToDb] is the table before followed by the rows added, at most one
    per record of the response; the counter advances by the number of rows
    added; and each added row has platform android or ios and all its
    descriptive columns NULL. *)
Theorem X2_ingestion_appends (apps : list App.t) (db : Db) :
  exists added,
    db_after (addAppsToDb apps) db
    = mkDb (rows db ++ added)%list (seq db + Z.of_nat (List.length added))
    /\ (List.length added <= List.length apps)%nat
    /\ Forall fresh_row added.
Proof.
  rewrite addAppsToDb_db. revert db.
  induction apps as [|a rest IH]; intros db.
  - exists []. rewrite app_nil_r. cbn. rewrite Z.add_0_r.
    split; [now destruct db|]. split; [lia|constructor].
  - cbn [ingest fold_left].
    destruct (persist_appends a db) as (l1 & E1 & L1 & F1).
    destruct (IH (persist (candidate a) db)) as (l2 & E2 & L2 & F2).
    exists (l1 ++ l2)%list. unfold ingest in E2. rewrite E2, E1. cbn [rows seq].
    rewrite <- app_assoc, length_app, Nat2Z.inj_add, Z.add_assoc.
    split; [reflexivity|]. split; [cbn [List.length]; lia|].
    apply Forall_app. now split.
Qed.

(** ** A record on which the loop body throws *)

Lemma candidate_throws (app : App.t) :
  throws_before_insert app -> candidate app = None.
Proof.
  unfold candidate. intros [H|[(t & Ht & Ha & Hi) H]].
  - now destruct (App.odata_type app).
  - rewrite Ht, Ha, Hi. now destruct (App.appStoreUrl app).
Qed.

(** X3: a record whose [@odata.type] is not a string, or an iOS record whose
    [appStoreUrl] is not a string, makes the loop body throw a TypeError; the
    [catch] logs it, no row is written, and the records before and after it
    are ingested as if it were not in the response. *)
Theorem X3_type_error_is_caught
    (app : App.t) (pre post : list App.t) (db : Db)
    (Happ : throws_before_insert app) :
  (exists reading,
      addApp app db = (Return tt, db, [ErrInsertion (TypeError reading)]))
  /\ db_after (addAppsToDb (pre ++ app :: post)) db
     = db_after (addAppsToDb (pre ++ post)) db
  /\ result_of (addAppsToDb (pre ++ app :: post)) db = Return tt.
Proof.
  pose proof (candidate_throws app Happ) as Hc.
  split; [|split].
  - unfold addApp, platform_of, try_catch, bind.
    destruct Happ as [H|[(t & Ht & Ha & Hi) H]].
    + exists "includes". now destruct (App.odata_type app).
    + exists "startsWith". rewrite Ht, Ha, Hi.
      now destruct (App.appStoreUrl app).
  - rewrite !addAppsToDb_db, !ingest_app. cbn [ingest fold_left].
    now rewrite Hc.
  - apply addAppsToDb_returns.
Qed.

Lemma X3_type_error_is_caught_witness :
  throws_before_insert
    (App.mk (JString "#microsoft.graph.iosLobApp") (JString "a-07") JNull
            JUndefined)
  /\ db_after (addAppsToDb
                 ([Sample.facebook]
                  ++ App.mk (JString "#microsoft.graph.iosLobApp")
                            (JString "a-07") JNull JUndefined
                  :: [Sample.firefox])) empty_db
     = db_after (addAppsToDb ([Sample.facebook] ++ [Sample.firefox])) empty_db.
Proof.
  assert (H : throws_before_insert
                (App.mk (JString "#microsoft.graph.iosLobApp")
                        (JString "a-07") JNull JUndefined)).
  { right. split; [|exact I].
    exists "#microsoft.graph.iosLobApp". repeat split; reflexivity. }
  split; [exact H|].
  apply (X3_type_error_is_caught _ [Sample.facebook] [Sample.firefox]
                                 empty_db H).
Defined.

(** ** The package identifier comes first *)

(** X4: when the record carries a non-empty [packageId] string, the key is
    the platform, a dash and that string, and [appIdentifier] is that string:
    for an Android record whatever the store URL, and for an iOS record,
    whose store URL is still resolved and stored in [itunesId], whatever the
    URL resolves to. *)
Theorem X4_package_id_first
    (app : App.t) (t p : string)
    (Htype : App.odata_type app = JString t)
    (Hpkg : App.packageId app = JString p)
    (Hp : p <> EmptyString) :
  (JsString.includes t "android" = true ->
   candidate app
   = Some ("android-" ++ p,
           new_row 0 (bind_param (App.id app)) (SText ("android-" ++ p))
                   (SText p) SNull (SText p) (SText "android")))
  /\ (forall url,
        JsString.includes t "android" = false ->
        JsString.includes t "ios" = true ->
        App.appStoreUrl app = JString url ->
        exists itunesId,
          resolved url = Return itunesId
          /\ candidate app
             = Some ("ios-" ++ p,
                     new_row 0 (bind_param (App.id app)) (SText ("ios-" ++ p))
                             (SText p) (bind_param itunesId) (SText p)
                             (SText "ios"))).
Proof.
  assert (Ht : truthy (JString p) = true)
    by (cbn; apply negb_true_iff, String.eqb_neq, Hp).
  split.
  - intros Ha. unfold candidate, platformAppKey_of, appIdentifier_of, js_or.
    now rewrite Htype, Ha, Hpkg, Ht.
  - intros url Ha Hi Hu.
    unfold candidate, platformAppKey_of, appIdentifier_of, js_or.
    rewrite Htype, Ha, Hi, Hpkg, Ht, Hu. unfold resolved.
    destruct (fst (getPackageOrItunesId (JString url))) as [v|e] eqn:E.
    + exists v. now split.
    + exfalso. unfold getPackageOrItunesId in E.
      destruct (JsString.startsWith url play_prefix);
        [|destruct (JsString.startsWith url apple_prefix)]; discriminate.
Qed.

Lemma X4_package_id_first_witness :
  candidate Sample.firefox
  = Some ("android-org.mozilla.firefox",
          new_row 0 (SText "a-03") (SText "android-org.mozilla.firefox")
                  (SText "org.mozilla.firefox") SNull
                  (SText "org.mozilla.firefox") (SText "android")).
Proof.
  apply (proj1 (X4_package_id_first
                  Sample.firefox "#microsoft.graph.androidManagedStoreApp"
                  "org.mozilla.firefox" eq_refl eq_refl
                  ltac:(discriminate))).
  reflexivity.
Defined.

(** ** What a key stands for *)

Lemma append_same_prefix (p a b : string) : p ++ a = p ++ b -> a = b.
Proof.
  induction p as [|c p IH]; cbn; intros H; [exact H|].
  injection H as H. now apply IH.
Qed.

(** X5: two records get the same [platformAppKey] exactly when they are of
    the same platform and their identifiers, the [packageId] or else the
    resolved iTunes id, print the same in the template literal. *)
Theorem X5_key_names_platform_and_identifier
    (pa pb : string) (a b : App.t) (ia ib : jsval)
    (Hpa : pa = "android" \/ pa = "ios")
    (Hpb : pb = "android" \/ pb = "ios") :
  platformAppKey_of pa a ia = platformAppKey_of pb b ib
  <-> pa = pb
      /\ js_to_string (appIdentifier_of a ia)
         = js_to_string (appIdentifier_of b ib).
Proof.
  unfold platformAppKey_of, appIdentifier_of. split.
  - intros H. destruct Hpa as [-> | ->], Hpb as [-> | ->];
      try (cbn in H; discriminate H).
    + split; [reflexivity|].
      now apply (append_same_prefix "android-").
    + split; [reflexivity|].
      now apply (append_same_prefix "ios-").
  - intros [-> E]. now rewrite E.
Qed.

Lemma X5_key_names_platform_and_identifier_witness :
  platformAppKey_of "android" Sample.temu JNull
  <> platformAppKey_of "ios" Sample.ios_odd_url JNull.
Proof.
  intros H.
  apply (X5_key_names_platform_and_identifier
           "android" "ios" Sample.temu Sample.ios_odd_url JNull JNull
           (or_introl eq_refl) (or_intror eq_refl)) in H.
  destruct H as [H _]. discriminate H.
Defined.

(** ** The first record of a key wins *)

(** X6: of two records of one response that resolve to the same key, only
    the earlier can be stored: when the earlier one's [intuneAppId] is not
    yet in the table, the later one, wherever it stands after it, leaves no
    trace in the table. *)
Theorem X6_first_record_of_a_key_wins
    (a b : App.t) (mid post : list App.t) (db : Db)
    (key : string) (ra rb : Row.t)
    (Ha : candidate a = Some (key, ra))
    (Hb : candidate b = Some (key, rb))
    (Hid : taken Row.intuneAppId (Row.intuneAppId ra) db = false) :
  db_after (addAppsToDb (a :: mid ++ b :: post)) db
  = db_after (addAppsToDb (a :: mid ++ post)) db.
Proof.
  rewrite !addAppsToDb_db.
  change (a :: mid ++ b :: post)%list with ((a :: mid) ++ b :: post)%list.
  change (a :: mid ++ post)%list with ((a :: mid) ++ post)%list.
  rewrite !ingest_app.
  set (db1 := ingest (a :: mid) db).
  change (ingest (b :: post) db1)
    with (ingest post (persist (candidate b) db1)).
  f_equal.
  assert (Hin : existsb (platformAppKey_is (SText key)) (rows db1) = true).
  { apply existsb_incl with (l := rows (persist (candidate a) db)).
    - apply (ingest_incl mid).
    - rewrite Ha. cbn [persist].
      destruct (existsb (platformAppKey_is (SText key)) (rows db)) eqn:Hk;
        [exact Hk|].
      rewrite Hid. cbn [rows]. rewrite existsb_app. cbn.
      unfold platformAppKey_is at 2. cbn.
      rewrite (candidate_key _ _ _ Ha). cbn. rewrite String.eqb_refl.
      now rewrite orb_true_r. }
  rewrite Hb. cbn [persist]. now rewrite Hin.
Qed.

Lemma X6_first_record_of_a_key_wins_witness :
  rows (db_after (addAppsToDb (Sample.temu :: [Sample.firefox]
                               ++ Sample.android_lob :: [Sample.facebook]))
                 empty_db)
  = rows (db_after (addAppsToDb (Sample.temu :: [Sample.firefox]
                                 ++ [Sample.facebook])) empty_db).
Proof.
  exact (f_equal rows
           (X6_first_record_of_a_key_wins
              Sample.temu Sample.android_lob [Sample.firefox] [Sample.facebook]
              empty_db "android-null"
              (new_row 0 (SText "a-02") (SText "android-null") SNull SNull
                       SNull (SText "android"))
              (new_row 0 (SText "a-05") (SText "android-null") SNull SNull
                       SNull (SText "android"))
              eq_refl eq_refl eq_refl)).
Defined.

(** ** The resolver on well-formed store URLs *)

Lemma append_nothing (s : string) : s ++ EmptyString = s.
Proof. induction s as [|c s IH]; cbn; [reflexivity | now rewrite IH]. Qed.

Lemma append_regroup (s t u : string) : (s ++ t) ++ u = s ++ t ++ u.
Proof. induction s as [|c s IH]; cbn; [reflexivity | now rewrite IH]. Qed.

Lemma drop_append (p r : string) : JsString.drop (String.length p) (p ++ r) = r.
Proof. induction p as [|c p IH]; [reflexivity | exact IH]. Qed.

Lemma includes_char_append (c : ascii) (s t : string) :
  JsString.includes (s ++ String c t) (String c EmptyString) = true.
Proof.
  induction s as [|a s IH].
  - cbn [append]. rewrite includes_char, Ascii.eqb_refl. reflexivity.
  - cbn [append]. rewrite includes_char, IH. apply orb_true_r.
Qed.

Lemma before_stop (c : ascii) (s t : string) :
  JsString.includes s (String c EmptyString) = false ->
  JsString.before c (s ++ String c t) = s.
Proof.
  induction s as [|a s IH]; intros H.
  - cbn. now rewrite Ascii.eqb_refl.
  - rewrite includes_char in H. apply orb_false_iff in H as [Ha Hs].
    cbn. rewrite Ha. f_equal. now apply IH.
Qed.

Lemma before_whole (c : ascii) (s : string) :
  JsString.includes s (String c EmptyString) = false ->
  JsString.before c s = s.
Proof.
  induction s as [|a s IH]; intros H; [reflexivity|].
  rewrite includes_char in H. apply orb_false_iff in H as [Ha Hs].
  cbn. rewrite Ha. f_equal. now apply IH.
Qed.

Lemma after_last_stop (c : ascii) (s t : string) :
  JsString.includes t (String c EmptyString) = false ->
  JsString.after_last c (s ++ String c t) = t.
Proof.
  intros Ht. induction s as [|a s IH].
  - cbn [append JsString.after_last]. now rewrite Ht, Ascii.eqb_refl.
  - cbn [append JsString.after_last]. now rewrite includes_char_append.
Qed.

Lemma includes_char_app (c : ascii) (s t : string) :
  JsString.includes (s ++ t) (String c EmptyString)
  = JsString.includes s (String c EmptyString)
    || JsString.includes t (String c EmptyString).
Proof.
  induction s as [|a s IH]; [reflexivity|].
  cbn [append]. rewrite !includes_char, IH. apply orb_assoc.
Qed.

(** X7: the resolver recovers the package name from a Google Play details
    URL: for every package name without an ampersand, with or without
    further query parameters after it, the result is the package name. *)
Theorem X7_play_url_round_trip (package : string) (more : option string)
    (Hpkg : JsString.includes package "&" = false) :
  resolved (play_prefix ++ package ++ more_parameters more)
  = Return (JString package).
Proof.
  rewrite resolved_play by apply prefix_append.
  unfold android_policy. rewrite drop_append. do 2 f_equal.
  destruct more as [params|]; cbn [more_parameters].
  - now apply before_stop.
  - rewrite append_nothing. now apply before_whole.
Qed.

Lemma X7_play_url_round_trip_witness :
  resolved "https://play.google.com/store/apps/details?id=com.whatsapp&hl=en&gl=US"
  = Return (JString "com.whatsapp").
Proof.
  exact (X7_play_url_round_trip "com.whatsapp" (Some "hl=en&gl=US") eq_refl).
Defined.

(** X8: the resolver recovers the numeric identifier from an App Store URL:
    for every URL made of the Apple prefix, a path without a question mark,
    a slash, [id], an identifier without slash or question mark, and
    optionally a query string, the result is the identifier. *)
Theorem X8_apple_url_round_trip (name number : string) (query : option string)
    (Hname : JsString.includes name "?" = false)
    (Hslash : JsString.includes number "/" = false)
    (Hquery : JsString.includes number "?" = false) :
  resolved (apple_prefix ++ name ++ "/id" ++ number ++ query_text query)
  = Return (JString number).
Proof.
  rewrite resolved_apple by apply prefix_append.
  unfold ios_last_segment. rewrite drop_append.
  assert (Hq : JsString.includes (name ++ "/id" ++ number) "?" = false).
  { rewrite !includes_char_app, Hname, Hquery. reflexivity. }
  assert (Eb : JsString.before "?" (name ++ "/id" ++ number ++ query_text query)
               = name ++ "/id" ++ number).
  { destruct query as [params|]; cbn [query_text].
    - replace (name ++ "/id" ++ number ++ String "?" params)
        with ((name ++ "/id" ++ number) ++ String "?" params)
        by (now rewrite !append_regroup).
      now apply before_stop.
    - rewrite append_nothing. now apply before_whole. }
  rewrite Eb.
  change (name ++ "/id" ++ number) with (name ++ String "/" ("id" ++ number)).
  rewrite after_last_stop.
  - rewrite replace_prefix by apply prefix_append. now rewrite drop_append.
  - change ("id" ++ number) with (String "i" (String "d" number)).
    rewrite !includes_char, Hslash. reflexivity.
Qed.

Lemma X8_apple_url_round_trip_witness :
  resolved "https://apps.apple.com/us/app/whatsapp-messenger/id310633997?uo=4"
  = Return (JString "310633997").
Proof.
  exact (X8_apple_url_round_trip "whatsapp-messenger" "310633997"
                                 (Some "uo=4") eq_refl eq_refl eq_refl).
Defined.

(** X9: the resolver returns [null] for exactly the strings that start with
    neither store prefix; for a string that starts with one of them it
    returns a string. *)
Theorem X9_null_only_without_prefix (url : string) :
  resolved url = Return JNull
  <-> JsString.startsWith url play_prefix = false
      /\ JsString.startsWith url apple_prefix = false.
Proof.
  split.
  - intros H. destruct (JsString.startsWith url play_prefix) eqn:Hp.
    + rewrite (resolved_play url Hp) in H. discriminate.
    + destruct (JsString.startsWith url apple_prefix) eqn:Ha.
      * rewrite (resolved_apple url Ha) in H. discriminate.
      * now split.
  - intros [Hp Ha]. unfold resolved. now rewrite resolved_elsewhere.
Qed.

Lemma X9_null_only_without_prefix_witness :
  resolved "https://itunes.apple.com/us/app/id284882215" = Return JNull.
Proof.
  apply (proj2 (X9_null_only_without_prefix
                  "https://itunes.apple.com/us/app/id284882215")).
  split; reflexivity.
Defined.

(** X10: an App Store URL that ends in a slash resolves to the empty string,
    not to [null]; an iOS record without a package identifier that carries
    such a URL is therefore keyed ios- with nothing after the dash, and its
    [itunesId] and [appIdentifier] are stored as empty text. *)
Theorem X10_trailing_slash_gives_empty_identifier
    (app : App.t) (path : string)
    (Hios : is_ios app)
    (Hpkg : truthy (App.packageId app) = false)
    (Hurl : App.appStoreUrl app = JString (apple_prefix ++ path ++ "/"))
    (Hpath : JsString.includes path "?" = false) :
  resolved (apple_prefix ++ path ++ "/") = Return (JString EmptyString)
  /\ candidate app
     = Some ("ios-",
             new_row 0 (bind_param (App.id app)) (SText "ios-")
                     (bind_param (App.packageId app)) (SText EmptyString)
                     (SText EmptyString) (SText "ios")).
Proof.
  assert (E : resolved (apple_prefix ++ path ++ "/")
              = Return (JString EmptyString)).
  { rewrite resolved_apple by apply prefix_append.
    unfold ios_last_segment. rewrite drop_append.
    rewrite before_whole.
    - now rewrite after_last_stop.
    - rewrite includes_char_app, Hpath. reflexivity. }
  split; [exact E|].
  destruct Hios as (t & Ht & Ha & Hi).
  unfold candidate. rewrite Ht, Ha, Hi, Hurl.
  unfold resolved in E. rewrite E.
  unfold platformAppKey_of, appIdentifier_of, js_or. now rewrite Hpkg.
Qed.

Lemma X10_trailing_slash_gives_empty_identifier_witness :
  candidate (App.mk (JString "#microsoft.graph.iosStoreApp") (JString "a-08")
                    JNull (JString "https://apps.apple.com/us/app/facebook/"))
  = Some ("ios-",
          new_row 0 (SText "a-08") (SText "ios-") SNull (SText EmptyString)
                  (SText EmptyString) (SText "ios")).
Proof.
  refine (proj2 (X10_trailing_slash_gives_empty_identifier
                   (App.mk (JString "#microsoft.graph.iosStoreApp")
                           (JString "a-08") JNull
                           (JString "https://apps.apple.com/us/app/facebook/"))
                   "facebook" _ eq_refl eq_refl eq_refl)).
  exists "#microsoft.graph.iosStoreApp". repeat split; reflexivity.
Defined.

(** ** The inventory fetcher *)

Section RequestProperties.

Variable axios_get : string -> string -> http Page.

Lemma while_next_serves (authorization : string) (pages : list Page) :
  forall (next : option string) (results : list App.t) (fuel : nat),
    serves axios_get authorization next pages ->
    (List.length pages <= fuel)%nat ->
    while_next axios_get fuel authorization next results
    = Some (HttpOk (results ++ concat (map value pages))%list).
Proof.
  induction pages as [|p rest IH]; intros next results fuel Hs Hf;
    inversion Hs; subst.
  - destruct fuel; cbn; now rewrite app_nil_r.
  - destruct fuel; cbn; now rewrite app_nil_r.
  - destruct fuel as [|fuel]; [cbn in Hf; lia|].
    cbn [while_next].
    match goal with H : _ <> EmptyString |- _ =>
      apply String.eqb_neq in H; rewrite H end.
    match goal with H : axios_get _ _ = _ |- _ => rewrite H end.
    rewrite (IH (nextLink p) (results ++ value p)%list fuel); try assumption.
    + cbn [map concat]. now rewrite app_assoc.
    + cbn in Hf. lia.
Qed.

(** X11: when the endpoint serves a chain of pages from the inventory URL,
    each linked from the one before and the last without a link, then
    [getIntuneApps], given at least as many requests as there are pages,
    returns the records of all the pages, in the order served. *)
Theorem X11_pages_are_concatenated
    (token : jsval) (pages : list Page) (fuel : nat)
    (Hserves : serves axios_get ("Bearer " ++ js_to_string token)
                      (Some inventory_url) pages)
    (Hfuel : (List.length pages <= fuel)%nat) :
  getIntuneApps axios_get fuel token
  = Some (HttpOk (concat (map value pages))).
Proof.
  unfold getIntuneApps.
  now rewrite (while_next_serves _ pages _ [] fuel Hserves Hfuel).
Qed.

Lemma while_next_fails (authorization message : string) :
  forall (before : nat) (next : option string) (results : list App.t)
         (fuel : nat),
    fails axios_get authorization message next before ->
    (before < fuel)%nat ->
    while_next axios_get fuel authorization next results
    = Some (HttpError message).
Proof.
  induction before as [|before IH]; intros next results fuel Hf Hlt;
    inversion Hf; subst;
    (destruct fuel as [|fuel]; [lia|]); cbn [while_next];
    match goal with H : _ <> EmptyString |- _ =>
      apply String.eqb_neq in H; rewrite H end;
    match goal with H : axios_get _ _ = _ |- _ => rewrite H end.
  - reflexivity.
  - apply IH; [assumption | lia].
Qed.

(** X12: when a request of the chain fails, however many pages were served
    before it, [getIntuneApps] is rejected with that request's error and
    hands over none of the records it had accumulated. *)
Theorem X12_failed_page_fails_the_fetch
    (token : jsval) (message : string) (before fuel : nat)
    (Hfails : fails axios_get ("Bearer " ++ js_to_string token) message
                    (Some inventory_url) before)
    (Hfuel : (before < fuel)%nat) :
  getIntuneApps axios_get fuel token = Some (HttpError message).
Proof.
  unfold getIntuneApps.
  now apply (while_next_fails _ message before).
Qed.

End RequestProperties.

Lemma X11_pages_are_concatenated_witness :
  getIntuneApps Tenant.two_pages 2 (JString "eyJ0")
  = Some (HttpOk [Sample.facebook; Sample.firefox; Sample.temu]).
Proof.
  apply (X11_pages_are_concatenated
           Tenant.two_pages (JString "eyJ0")
           [mkPage [Sample.facebook; Sample.firefox] (Some Tenant.second_page);
            mkPage [Sample.temu] None] 2).
  - apply serves_page; [discriminate | reflexivity |].
    apply serves_page; [discriminate | reflexivity |].
    apply serves_no_link.
  - apply le_n.
Defined.

Lemma X12_failed_page_fails_the_fetch_witness :
  getIntuneApps Tenant.throttled 5 (JString "eyJ0")
  = Some (HttpError "Request failed with status code 429").
Proof.
  apply (X12_failed_page_fails_the_fetch
           Tenant.throttled (JString "eyJ0")
           "Request failed with status code 429" 1 5).
  - apply (fails_later _ _ _ _
             (mkPage [Sample.facebook; Sample.firefox] (Some Tenant.second_page)));
      [discriminate | reflexivity |].
    apply fails_now; [discriminate | reflexivity].
  - repeat constructor.
Defined.

(** ** Enrichment: what a pass touches *)

Section PassProperties.

Variable gplay_app : sqlval -> provided.
Variable store_app : sqlval -> provided.
Variable Date_getTime : string -> jsnum.

Local Abbreviation enrich := (enrichAppMetadata gplay_app store_app Date_getTime).
Local Abbreviation each := (enrich_each gplay_app store_app Date_getTime).
Local Abbreviation pass := (enrich_pass gplay_app store_app Date_getTime).
Local Abbreviation asked := (fetch gplay_app store_app).

Lemma map_if_same (c : Row.t -> bool) (db : Db) :
  mkDb (map (fun x => if c x then x else x) (rows db)) (seq db) = db.
Proof.
  rewrite (map_ext _ (fun x => x)) by (intros x; now destruct (c x)).
  rewrite map_id. now destruct db.
Qed.

(** One call, in the shape of its UPDATE: the rows of the record's key are
    rewritten by a function that the provider's answer decides. *)
Lemma enrich_by_answer (appData : Row.t) :
  exists h : Row.t -> Row.t,
    (forall db,
        fst (enrich appData db)
        = (Return tt,
           mkDb (map (fun x => if platformAppKey_is (Row.platformAppKey appData) x
                               then h x else x) (rows db)) (seq db)))
    /\ (forall x, identity (h x) = identity x)
    /\ (forall x, Row.packageId (h x) = Row.packageId x
                  \/ Row.packageId (h x) = Row.packageId appData)
    /\ match fst (asked appData) with
       | Some (Rejects message) => h = Row.set_title (bind_param message)
       | Some (Resolves (Some m)) =>
           h = enriched appData (normalize_dates Date_getTime m)
                        (genre_for appData (normalize_dates Date_getTime m))
       | _ => h = fun x => x
       end.
Proof.
  unfold enrichAppMetadata, bind, lift. cbn [fst snd].
  destruct (fst (asked appData)) as [[message|[m|]]|].
  - exists (Row.set_title (bind_param message)).
    split; [reflexivity|]. split; [reflexivity|]. split; [now left|reflexivity].
  - exists (enriched appData (normalize_dates Date_getTime m)
                     (genre_for appData (normalize_dates Date_getTime m))).
    split; [reflexivity|]. split; [reflexivity|]. split; [now right|reflexivity].
  - exists (fun x => x). split; [|split; [reflexivity|split; [now left|reflexivity]]].
    intros db. cbn. now rewrite map_if_same.
  - exists (fun x => x). split; [|split; [reflexivity|split; [now left|reflexivity]]].
    intros db. cbn. now rewrite map_if_same.
Qed.



(** The pass, seen from one selected record: in the table the pass leaves,
    the rows of that record's key are the one row that the record's own call
    made of it. *)
Lemma pass_rewrites_selected
    (db : Db) (pre post : list Row.t) (r : Row.t) (h : Row.t -> Row.t) :
  keys_ok db ->
  filter title_is_null (rows db) = (pre ++ r :: post)%list ->
  (forall d,
      fst (enrich r d)
      = (Return tt,
         mkDb (map (fun x => if platformAppKey_is (Row.platformAppKey r) x
                             then h x else x) (rows d)) (seq d))) ->
  (forall x, identity (h x) = identity x) ->
  In (h r) (rows (db_after pass db))
  /\ forall y, In y (rows (db_after pass db)) ->
               Row.platformAppKey y = Row.platformAppKey r -> y = h r.
Proof.
  intros [Hnd Htext] Hsel E I.
  assert (Kh : forall x, Row.platformAppKey (h x) = Row.platformAppKey x)
    by (intros x; specialize (I x); unfold identity in I; congruence).
  assert (Hr : In r (rows db)).
  { assert (In r (filter title_is_null (rows db))) as H
      by (rewrite Hsel; apply in_or_app; right; now left).
    now apply filter_In in H. }
  destruct (Htext r Hr) as [k Hk].
  pose proof (selection_keys_distinct title_is_null _ Hnd) as Hs.
  rewrite Hsel, map_app in Hs. cbn [map] in Hs.
  pose proof (NoDup_remove_2 _ _ _ Hs) as Hout. rewrite Hk in Hout.
  assert (Hpre : forall r', In r' pre -> Row.platformAppKey r' <> SText k).
  { intros r' Hr' Eq. apply Hout, in_or_app. left. rewrite <- Eq.
    now apply in_map. }
  assert (Hpost : forall r', In r' post -> Row.platformAppKey r' <> SText k).
  { intros r' Hr' Eq. apply Hout, in_or_app. right. rewrite <- Eq.
    now apply in_map. }
  destruct (each_shape gplay_app store_app Date_getTime k pre db Hpre)
    as (g1 & E1 & K1 & O1).
  set (d1 := mkDb (map g1 (rows db)) (seq db)) in *.
  set (d2 := mkDb (map (fun x => if platformAppKey_is (Row.platformAppKey r) x
                                 then h x else x) (rows d1)) (seq d1)).
  destruct (each_shape gplay_app store_app Date_getTime k post d2 Hpost)
    as (g3 & E3 & K3 & O3).
  assert (P : rows (db_after pass db) = map g3 (rows d2)).
  { unfold db_after, enrich_pass, bind, all. cbn [fst snd]. rewrite Hsel.
    pose proof (each_app gplay_app store_app Date_getTime pre (r :: post) db)
      as Ea.
    rewrite each_cons, E1 in Ea. cbn [fst snd] in Ea. fold d1 in Ea.
    rewrite (E d1) in Ea. cbn [fst snd] in Ea. fold d2 in Ea.
    rewrite E3 in Ea.
    destruct (each (pre ++ r :: post) db) as [[o d] l]. cbn [fst] in Ea.
    now injection Ea as -> ->. }
  assert (M : platformAppKey_is (Row.platformAppKey r) r = true)
    by (unfold platformAppKey_is; rewrite Hk; now apply sql_eq_text).
  rewrite P. split.
  - rewrite <- (O3 (h r)) by (now rewrite Kh).
    apply in_map. subst d2. cbn [rows]. apply in_map_iff. exists r.
    rewrite M. split; [reflexivity|].
    subst d1. cbn [rows]. rewrite <- (O1 r Hk). now apply in_map.
  - intros y Hy Ey. rewrite Hk in Ey.
    apply in_map_iff in Hy as (z & <- & Hz). rewrite K3 in Ey.
    rewrite (O3 z Ey). subst d2. cbn [rows] in Hz.
    apply in_map_iff in Hz as (w & <- & Hw).
    assert (Ew : Row.platformAppKey w = SText k).
    { destruct (platformAppKey_is _ w); [now rewrite Kh in Ey | exact Ey]. }
    assert (Mw : platformAppKey_is (Row.platformAppKey r) w = true)
      by (unfold platformAppKey_is; rewrite Hk; now apply sql_eq_text).
    rewrite Mw. f_equal. subst d1. cbn [rows] in Hw.
    apply in_map_iff in Hw as (v & <- & Hv). rewrite K1 in Ew.
    rewrite (O1 v Ew).
    apply (NoDup_map_same Row.platformAppKey (rows db)); try assumption.
    now rewrite Hk.
Qed.

(** X14: an enrichment pass leaves every row that already has a title
    exactly as it is and where it is, whatever the providers answer for the
    rows it does select. *)
Theorem X14_titled_rows_untouched (db : Db) (i : nat) (x : Row.t)
    (Hkeys : keys_ok db)
    (Hx : nth_error (rows db) i = Some x)
    (Htitle : is_null (Row.title x) = false) :
  nth_error (rows (db_after pass db)) i = Some x.
Proof.
  destruct Hkeys as [Hnd Htext].
  assert (Hin : In x (rows db)) by (eapply nth_error_In; eassumption).
  destruct (Htext x Hin) as [k Hk].
  assert (Hsel : forall r', In r' (filter title_is_null (rows db)) ->
                            Row.platformAppKey r' <> SText k).
  { intros r' Hr' Eq. apply filter_In in Hr' as [Hr' Hnull].
    assert (r' = x) as ->.
    { apply (NoDup_map_same Row.platformAppKey (rows db)); try assumption.
      now rewrite Hk. }
    unfold title_is_null in Hnull. congruence. }
  destruct (each_shape gplay_app store_app Date_getTime k _ db Hsel)
    as (g & E & _ & O).
  unfold db_after, enrich_pass, bind, all. cbn [fst snd].
  destruct (each (filter title_is_null (rows db)) db) as [[o d] l].
  cbn in E. injection E as -> ->. cbn [fst snd rows].
  rewrite nth_error_map, Hx. cbn. now rewrite (O x Hk).
Qed.


(** X16: only a message or a title settles a record.  When for a selected
    record no provider is asked (its platform is neither android nor ios),
    or the provider resolves to nothing, or the error carries no message,
    the pass leaves the row as it was, and the following pass selects it
    again. *)
Theorem X16_unsettled_record_is_selected_again
    (db : Db) (pre post : list Row.t) (r : Row.t)
    (Hkeys : keys_ok db)
    (Hsel : filter title_is_null (rows db) = (pre ++ r :: post)%list)
    (Hanswer : writes_no_title (fst (asked r))) :
  In r (rows (db_after pass db))
  /\ In r (filter title_is_null (rows (db_after pass db)))
  /\ (forall y, In y (rows (db_after pass db)) ->
                Row.platformAppKey y = Row.platformAppKey r -> y = r).
Proof.
  assert (Hnull : title_is_null r = true).
  { assert (In r (filter title_is_null (rows db))) as H
      by (rewrite Hsel; apply in_or_app; right; now left).
    now apply filter_In in H. }
  destruct (enrich_by_answer r) as (h & E & I & _ & Eh).
  assert (Hr : h r = r).
  { destruct (fst (asked r)) as [[message|[m|]]|]; cbn in Hanswer;
      try (now subst h); try contradiction.
    subst h. rewrite Hanswer. unfold title_is_null in Hnull.
    destruct r. cbn in *. destruct title; try discriminate. reflexivity. }
  destruct (pass_rewrites_selected db pre post r h Hkeys Hsel E I)
    as [Hin Hall].
  rewrite Hr in Hin, Hall.
  split; [exact Hin|]. split; [|exact Hall].
  apply filter_In. now split.
Qed.

Lemma each_keeps_package (db0 : Db) (l : list Row.t) :
  keys_ok db0 ->
  (forall a, In a l -> In a (rows db0)) ->
  forall d G,
    rows d = map G (rows db0) ->
    (forall x, In x (rows db0) ->
               Row.platformAppKey (G x) = Row.platformAppKey x
               /\ Row.packageId (G x) = Row.packageId x) ->
    map Row.packageId (rows (snd (fst (each l d))))
    = map Row.packageId (rows db0).
Proof.
  intros [Hnd Htext]. induction l as [|a l IH]; intros Hl d G Hd HG.
  - cbn. rewrite Hd, map_map. apply map_ext_in. intros x Hx.
    now destruct (HG x Hx).
  - destruct (enrich_by_answer a) as (h & E & I & Hp & _).
    rewrite each_cons, E. cbn [fst snd].
    pose proof (Hl a (or_introl eq_refl)) as Ha.
    destruct (Htext a Ha) as [k Hk].
    apply (IH (fun a' H => Hl a' (or_intror H)) _
              (fun x => if platformAppKey_is (Row.platformAppKey a) (G x)
                        then h (G x) else G x)).
    + cbn [rows]. now rewrite Hd, map_map.
    + intros x Hx. destruct (HG x Hx) as [Kx Px].
      destruct (platformAppKey_is (Row.platformAppKey a) (G x)) eqn:M;
        [|now split].
      split.
      * specialize (I (G x)). unfold identity in I. congruence.
      * destruct (Hp (G x)) as [-> | ->]; [exact Px|].
        unfold platformAppKey_is in M. rewrite Hk in M.
        apply sql_eq_text in M. rewrite Kx in M.
        f_equal. apply (NoDup_map_same Row.platformAppKey (rows db0));
          try assumption. now rewrite Hk.
Qed.

(** X17: the UPDATE of [enrichAppMetadata] also sets [packageId], to the
    value the selected row already had: on a table with distinct text keys,
    an enrichment pass changes the [packageId] of no row. *)
Theorem X17_pass_keeps_package_id (db : Db) (Hkeys : keys_ok db) :
  map Row.packageId (rows (db_after pass db)) = map Row.packageId (rows db).
Proof.
  unfold db_after, enrich_pass, bind, all. cbn [fst snd].
  pose proof (each_keeps_package db (filter title_is_null (rows db)) Hkeys
                (fun a H => proj1 (proj1 (filter_In _ _ _) H))
                db (fun x => x) (eq_sym (map_id _))
                (fun x _ => conj eq_refl eq_refl)) as H.
  destruct (each (filter title_is_null (rows db)) db) as [[o d] l].
  exact H.
Qed.

End PassProperties.

Lemma sample_table_keys_ok : keys_ok Sample.table.
Proof.
  exact (ingest_keys_ok [Sample.facebook; Sample.firefox; Sample.temu]
                        empty_db keys_ok_empty).
Qed.

Lemma X14_titled_rows_untouched_witness :
  nth_error
    (rows (db_after (enrich_pass Shop.gplay_found Sample.store_quiet
                                 Sample.utc_midnight)
                    Shop.table_with_error)) 1
  = Some (Row.set_title (SText "App not found (404)") Sample.firefox_row).
Proof.
  apply (X14_titled_rows_untouched
           Shop.gplay_found Sample.store_quiet Sample.utc_midnight
           Shop.table_with_error 1).
  - split.
    + cbn. repeat constructor; cbn; intuition discriminate.
    + cbn. intros r [<-|[<-|[<-|[]]]]; eexists; reflexivity.
  - reflexivity.
  - reflexivity.
Defined.


Lemma X16_unsettled_record_is_selected_again_witness :
  In Sample.facebook_row
     (filter title_is_null
        (rows (db_after (enrich_pass Shop.gplay_found Sample.store_quiet
                                     Sample.utc_midnight) Sample.table))).
Proof.
  exact (proj1 (proj2 (X16_unsettled_record_is_selected_again
                         Shop.gplay_found Sample.store_quiet
                         Sample.utc_midnight Sample.table []
                         [Sample.firefox_row; Sample.temu_row]
                         Sample.facebook_row sample_table_keys_ok eq_refl I))).
Defined.

Lemma X17_pass_keeps_package_id_witness :
  map Row.packageId
      (rows (db_after (enrich_pass Shop.gplay_found Sample.store_quiet
                                   Sample.utc_midnight) Sample.table))
  = [SNull; SText "org.mozilla.firefox"; SNull].
Proof.
  exact (X17_pass_keeps_package_id
           Shop.gplay_found Sample.store_quiet Sample.utc_midnight
           Sample.table sample_table_keys_ok).
Defined.

(** ** Start-up and the run as a whole *)

Lemma or_env (flag : string) (var : option string) (v : jsval) :
  js_or (JString flag) (env_value var) = v ->
  truthy v = true ->
  exists s, v = JString s /\ s <> EmptyString
            /\ (flag = s \/ (flag = EmptyString /\ var = Some s)).
Proof.
  unfold js_or. cbn [truthy]. intros E Ht.
  destruct (flag =? EmptyString) eqn:Hf; cbn [negb] in E; subst v.
  - apply String.eqb_eq in Hf. destruct var as [s|]; cbn in *; [|discriminate].
    exists s. split; [reflexivity|]. split.
    + now apply String.eqb_neq, negb_true_iff.
    + right. now split.
  - exists flag. split; [reflexivity|]. split; [|now left].
    now apply String.eqb_neq.
Qed.

(** X18: the main function is reached only with both [--tenantId] and
    [--clientId] on the command line and with three credentials that are
    non-empty strings: the tenant and the client are the flag's value, or the
    environment variable's when the flag's value is empty, and the secret is
    the value of [CLIENT_SECRET], never anything from the command line. *)
Theorem X18_run_has_credentials (argv : Argv) (env : Env) (opts : Opts)
    (Hrun : startup argv env = Running opts) :
  exists ft fc t c s,
    flag_tenantId argv = Some ft /\ flag_clientId argv = Some fc
    /\ tenantId opts = JString t /\ t <> EmptyString
    /\ (ft = t \/ (ft = EmptyString /\ TENANT_ID env = Some t))
    /\ clientId opts = JString c /\ c <> EmptyString
    /\ (fc = c \/ (fc = EmptyString /\ CLIENT_ID env = Some c))
    /\ clientSecret opts = JString s /\ s <> EmptyString
    /\ CLIENT_SECRET env = Some s.
Proof.
  unfold startup, program_parse in Hrun.
  destruct (flag_tenantId argv) as [ft|]; [|discriminate].
  destruct (flag_clientId argv) as [fc|]; [|discriminate].
  cbn [tenantId clientId debug metadata output] in Hrun.
  destruct (truthy (js_or (JString ft) (env_value (TENANT_ID env)))) eqn:Ht;
    [|discriminate].
  destruct (truthy (js_or (JString fc) (env_value (CLIENT_ID env)))) eqn:Hc;
    [|discriminate].
  destruct (truthy (env_value (CLIENT_SECRET env))) eqn:Hs; [|discriminate].
  cbn in Hrun. injection Hrun as <-. cbn [tenantId clientId clientSecret].
  destruct (or_env ft (TENANT_ID env) _ eq_refl Ht) as (t & Et & Nt & Ot).
  destruct (or_env fc (CLIENT_ID env) _ eq_refl Hc) as (c & Ec & Nc & Oc).
  destruct (CLIENT_SECRET env) as [s|]; [|discriminate].
  exists ft, fc, t, c, s. repeat split; try assumption.
  cbn in Hs. now apply String.eqb_neq, negb_true_iff.
Qed.

Lemma X18_run_has_credentials_witness :
  exists t, tenantId Tenant.opts = JString t /\ t <> EmptyString.
Proof.
  destruct (X18_run_has_credentials
              (mkArgv (Some "tenant-0") (Some "client-0") false false None)
              (mkEnv None None (Some "secret-0")) Tenant.opts eq_refl)
    as (ft & fc & t & c & s & _ & _ & Ht & Nt & _).
  exists t. now split.
Defined.

Section RunProperties.

Variable axios_post : string -> list (string * jsval) -> http jsval.
Variable axios_get : string -> string -> http Page.
Variable gplay_app : sqlval -> provided.
Variable store_app : sqlval -> provided.
Variable Date_getTime : string -> jsnum.

Local Abbreviation run :=
  (main axios_post axios_get gplay_app store_app Date_getTime).

(** X19: when the token request is rejected, or any request of the inventory
    chain is, the run prints the error's message and ends there: the
    [output] directory is not created, the database is neither created nor
    changed, and no file is written. *)
Theorem X19_failed_request_leaves_disk_untouched
    (fuel : nat) (opts : Opts) (disk : Disk) (message : string)
    (Hfail :
       getToken axios_post (tenantId opts) (clientId opts) (clientSecret opts)
       = HttpError message
       \/ exists token before,
            getToken axios_post (tenantId opts) (clientId opts)
                     (clientSecret opts) = HttpOk token
            /\ fails axios_get ("Bearer " ++ js_to_string token) message
                     (Some inventory_url) before
            /\ (before < fuel)%nat) :
  run fuel opts disk = Some (mkRan disk ["Error: " ++ message] []).
Proof.
  unfold main. destruct Hfail as [E | (token & before & E & Hf & Hlt)];
    rewrite E; [reflexivity|].
  unfold getIntuneApps.
  now rewrite (while_next_fails axios_get _ message before _ _ fuel Hf Hlt).
Qed.




End RunProperties.

Lemma X19_failed_request_leaves_disk_untouched_witness :
  main Tenant.token_ok Tenant.throttled Sample.gplay_down Sample.store_quiet
       Sample.no_dates 5 Tenant.opts Tenant.blank_disk
  = Some (mkRan Tenant.blank_disk
                ["Error: Request failed with status code 429"] []).
Proof.
  apply (X19_failed_request_leaves_disk_untouched
           Tenant.token_ok Tenant.throttled Sample.gplay_down
           Sample.store_quiet Sample.no_dates 5 Tenant.opts Tenant.blank_disk).
  right. exists (JString "eyJ0"), 1. split; [reflexivity|]. split.
  - apply (fails_later _ _ _ _
             (mkPage [Sample.facebook; Sample.firefox] (Some Tenant.second_page)));
      [discriminate | reflexivity |].
    apply fails_now; [discriminate | reflexivity].
  - repeat constructor.
Defined.


(** ** Looking a key up after ingestion *)

Lemma at_most_one_of_key (key : sqlval) (l : list Row.t) :
  NoDup (map Row.platformAppKey l) ->
  (List.length (filter (platformAppKey_is key) l) <= 1)%nat.
Proof.
  induction l as [|a l IH]; cbn; intros Hd; [lia|].
  inversion Hd as [|? ? Hn Hl]; subst. specialize (IH Hl).
  destruct (platformAppKey_is key a) eqn:Ha; [|exact IH].
  cbn. destruct (filter (platformAppKey_is key) l) as [|b rest] eqn:Ef;
    [cbn; lia|].
  exfalso. apply Hn.
  assert (Hb : In b (filter (platformAppKey_is key) l))
    by (rewrite Ef; now left).
  apply filter_In in Hb as [Hb Mb].
  unfold platformAppKey_is in Ha, Mb.
  destruct key as [|k|z]; try (destruct (Row.platformAppKey a); discriminate).
  - apply sql_eq_text in Ha, Mb. rewrite Ha, <- Mb. now apply in_map.
  - destruct (Row.platformAppKey a) as [|s|za] eqn:Ka; try discriminate.
    destruct (Row.platformAppKey b) as [|s|zb] eqn:Kb; try discriminate.
    cbn in Ha, Mb. apply Z.eqb_eq in Ha, Mb. subst.
    rewrite <- Kb. now apply in_map.
Qed.

(** X21: after ingestion the lookup the loop body makes,
    [SELECT * FROM app WHERE platformAppKey = ?], returns at most one row
    for any key, and exactly one for the key of a record of the response
    whose [intuneAppId] was free when its turn came: the row stored under
    that key. *)
Theorem X21_lookup_after_ingestion
    (app : App.t) (rest : list App.t) (db : Db) (key : string) (r : Row.t)
    (Hkeys : keys_ok db)
    (Hcand : candidate app = Some (key, r))
    (Hid : taken Row.intuneAppId (Row.intuneAppId r) db = false) :
  let after := db_after (addAppsToDb (app :: rest)) db in
  (forall k, exists found,
      result_of (all (platformAppKey_is k)) after = Return found
      /\ (List.length found <= 1)%nat)
  /\ exists row,
       result_of (all (platformAppKey_is (SText key))) after = Return [row]
       /\ Row.platformAppKey row = SText key.
Proof.
  intros after.
  assert (Hok : keys_ok after) by (now apply ingest_keys_ok).
  assert (Hone : forall k,
             (List.length (filter (platformAppKey_is k) (rows after)) <= 1)%nat)
    by (intros k; apply at_most_one_of_key, Hok).
  split.
  - intros k. eexists. split; [reflexivity | apply Hone].
  - assert (Hin : existsb (platformAppKey_is (SText key)) (rows after) = true).
    { subst after. rewrite addAppsToDb_db. cbn [ingest fold_left].
      apply existsb_incl with (l := rows (persist (candidate app) db)).
      - apply (ingest_incl rest).
      - rewrite Hcand. cbn [persist].
        destruct (existsb (platformAppKey_is (SText key)) (rows db)) eqn:Hk;
          [exact Hk|].
        rewrite Hid. cbn [rows]. rewrite existsb_app. cbn.
        unfold platformAppKey_is at 2. cbn.
        rewrite (candidate_key _ _ _ Hcand). cbn. rewrite String.eqb_refl.
        now rewrite orb_true_r. }
    specialize (Hone (SText key)). unfold result_of, all. cbn [fst].
    destruct (filter (platformAppKey_is (SText key)) (rows after))
      as [|row more] eqn:Ef.
    + exfalso. apply existsb_exists in Hin as (x & Hx & Mx).
      assert (In x (filter (platformAppKey_is (SText key)) (rows after)))
        as Hf by (apply filter_In; now split).
      rewrite Ef in Hf. destruct Hf.
    + destruct more as [|? ?]; [|cbn in Hone; lia].
      exists row. split; [reflexivity|].
      assert (In row (filter (platformAppKey_is (SText key)) (rows after)))
        as Hf by (rewrite Ef; now left).
      apply filter_In in Hf as [_ Mf]. now apply sql_eq_text.
Qed.

Lemma X21_lookup_after_ingestion_witness :
  result_of (all (platformAppKey_is (SText "ios-284882215"))) Sample.table
  = Return [Sample.facebook_row].
Proof.
  destruct (proj2 (X21_lookup_after_ingestion
                     Sample.facebook [Sample.firefox; Sample.temu] empty_db
                     "ios-284882215"
                     (new_row 0 (SText "a-01") (SText "ios-284882215") SNull
                              (SText "284882215") (SText "284882215")
                              (SText "ios"))
                     keys_ok_empty eq_refl eq_refl))
    as (row & E & _).
  reflexivity.
Defined.

(** ** A continuation link that leads back *)

Lemma while_next_self_link
    (axios_get : string -> string -> http Page)
    (authorization url : string) (res : Page) :
  url <> EmptyString ->
  axios_get url authorization = HttpOk res ->
  nextLink res = Some url ->
  forall fuel results,
    while_next axios_get fuel authorization (Some url) results = None.
Proof.
  intros Hu Hg Hn fuel. apply String.eqb_neq in Hu.
  induction fuel as [|fuel IH]; intros results; cbn [while_next]; rewrite Hu;
    [reflexivity|].
  rewrite Hg, Hn. apply IH.
Qed.

(** X22: the [while (next)] loop of [getIntuneApps] has no guard of its own:
    when the first page's continuation link is the inventory URL again, the
    loop is still running after any number of requests, and the function
    never returns. *)
Theorem X22_self_link_never_returns
    (axios_get : string -> string -> http Page) (token : jsval) (res : Page)
    (Hfirst : axios_get inventory_url ("Bearer " ++ js_to_string token)
              = HttpOk res)
    (Hlink : nextLink res = Some inventory_url) :
  forall fuel, getIntuneApps axios_get fuel token = None.
Proof.
  intros fuel. unfold getIntuneApps.
  apply (while_next_self_link axios_get _ inventory_url res);
    [discriminate | exact Hfirst | exact Hlink].
Qed.

Lemma X22_self_link_never_returns_witness :
  getIntuneApps
    (fun url authorization => HttpOk (mkPage [Sample.facebook] (Some url)))
    1000 (JString "eyJ0")
  = None.
Proof.
  exact (X22_self_link_never_returns
           (fun url authorization => HttpOk (mkPage [Sample.facebook] (Some url)))
           (JString "eyJ0") (mkPage [Sample.facebook] (Some inventory_url))
           eq_refl eq_refl 1000).
Defined.
